(** * Transfer.ts: transaction assembly and ring-participant resolution

    A shallow embedding of [src/lib/Transfer.ts] of the wallet backend:
    [getRingParticipants], [validateTransaction] and
    [sendTransactionAdvanced].

    Conventions of the embedding.
    - A JavaScript [number] holding an atomic-unit amount, a count or a
      height is a [Z]; [===] on such numbers is equality on [Z].
    - A tuple [[a, b]] is a pair, an array is a [list]; an optional
      parameter is an [option] ([undefined] is [None]).
    - A thrown value is kept as far as the code looks at it: what
      [err.toString()] does on it, return a text or throw in turn.
    - The caller's array [addressesAndAmounts] lives in a store of arrays
      and is passed by reference, since the function pushes to it.
    - Calls to the collaborators are recorded, in program order, in a
      log; the two daemon requests are the network calls. *)

From stdpp Require Import gmap strings list pretty.

Local Open Scope Z_scope.

(** ** WalletError.ts (the members [Transfer.ts] names) *)

Module WalletErrorCode.
(** The enumeration is declared in [WalletError.ts]; the members that
    [Transfer.ts] names are kept by name, any other member by number. *)
Inductive t : Type :=
| SUCCESS
| UNKNOWN_ERROR
| DAEMON_ERROR
| DAEMON_OFFLINE
| NOT_ENOUGH_FAKE_OUTPUTS
| OTHER (code : N).

#[global] Instance eq_dec : EqDecision t.
Proof. solve_decision. Defined.
End WalletErrorCode.

(** [new WalletError(errorCode, customMessage = '')]. *)
Record WalletError : Type := mkWalletError {
  errorCode : WalletErrorCode.t;
  customMessage : string;
}.

#[global] Instance WalletError_eq_dec : EqDecision WalletError.
Proof. solve_decision. Defined.

Definition newWalletError (code : WalletErrorCode.t) : WalletError :=
  mkWalletError code EmptyString.

Definition SUCCESS : WalletError := newWalletError WalletErrorCode.SUCCESS.

(** [deepEqual(a, b)] on two [WalletError] objects compares their fields. *)
Definition deepEqual (a b : WalletError) : bool := bool_decide (a = b).

(** ** Data (Types.ts and turtlecoin-utils, the fields the code reads) *)

Definition Destination : Type := string * Z.

Module TxInput.
Record t : Type := mk {
  transactionPublicKey : string;
  transactionIndex : Z;
  globalOutputIndex : Z;
  amount : Z;
  key : string;
}.
End TxInput.

Module TxInputAndOwner.
Record t : Type := mk {
  input : TxInput.t;
  publicSpendKey : string;
  privateSpendKey : string;
}.
End TxInputAndOwner.

Module DecodedAddress.
Record t : Type := mk {
  publicViewKey : string;
  publicSpendKey : string;
  paymentId : string;
}.
End DecodedAddress.

Module TxDestination.
Record t : Type := mk {
  amount : Z;
  keys : DecodedAddress.t;
}.
End TxDestination.

Module OutputKeys.
Record t : Type := mk {
  privateEphemeral : string;
  privateSpendKey : string;
  publicSpendKey : string;
}.
End OutputKeys.

Module Output.
Record t : Type := mk {
  amount : Z;
  globalIndex : Z;
  index : Z;
  input : OutputKeys.t;
  key : string;
  keyImage : string;
}.
End Output.

Module RandomOutput.
Record t : Type := mk {
  globalIndex : Z;
  key : string;
}.

#[global] Instance eq_dec : EqDecision t.
Proof. solve_decision. Defined.
End RandomOutput.

Module CreatedTransaction.
Record t : Type := mk {
  rawTransaction : string;
  hash : string;
}.
End CreatedTransaction.

(** One element of the daemon's answer: [[amount, [[index, key], ...]]]. *)
Definition Bucket : Type := Z * list (Z * string).

(** [.length] of a two-element tuple such as [[amount, outputs]]: the
    number of its components, not the length of [outputs]. *)
Definition tuple_length {A B : Type} (p : A * B) : Z := 2.

(** ** Effects: exceptions, the array store and the call log *)

(** A thrown value.  The code only ever calls [toString()] on one: the
    call returns a text, or throws in turn a value of its own (a
    [TypeError] when the thrown value is [undefined] or [null], anything
    when it is an object whose [toString] throws). *)
Inductive Thrown : Type :=
| Printable (text : string)
| Unprintable (raised : Thrown).

(** A text stands for the thrown value that renders as that text. *)
Coercion Printable : string >-> Thrown.

Inductive Result (A : Type) : Type :=
| Value (a : A)
| Throw (err : Thrown).
Arguments Value {A} a.
Arguments Throw {A} err%_string.

(** [err.toString()]. *)
Definition toString (err : Thrown) : Result string :=
  match err with
  | Printable text => Value text
  | Unprintable raised => Throw raised
  end.

Definition is_Value {A : Type} (r : Result A) : Prop :=
  match r with
  | Value _ => True
  | Throw _ => False
  end.

Inductive Event : Type :=
| CallValidateTransaction (destinations : list Destination) (mixin fee : Z)
    (paymentID : string) (subWalletsToTakeFrom : list string)
    (changeAddress : string) (currentHeight : Z)
| CallGetTransactionInputsForAmount (totalAmount : Z)
    (subWalletsToTakeFrom : list string) (currentHeight : Z)
| CallGetRandomOutputsByAmount (amounts : list Z) (requestedOuts : Z)
| CallCreateTransaction (transfers : list TxDestination.t)
    (ourOutputs : list Output.t) (randomOuts : list (list RandomOutput.t))
    (mixin fee : Z) (paymentID : string)
| CallLog (message : string)
| CallSendTransaction (rawTransaction : string).

(** The daemon requests that go over the network. *)
Definition is_network_call (e : Event) : bool :=
  match e with
  | CallGetRandomOutputsByAmount _ _ | CallSendTransaction _ => true
  | _ => false
  end.

Definition network_calls (log : list Event) : list Event :=
  filter (λ e, is_network_call e = true) log.

Definition loc : Type := positive.

Record World : Type := mkWorld {
  arrays : gmap loc (list Destination);
  calls : list Event;
}.

Definition Js (A : Type) : Type := World → Result A * World.

#[global] Instance Js_ret : MRet Js := λ A a w, (Value a, w).

#[global] Instance Js_bind : MBind Js := λ A B f m w,
  match m w with
  | (Value a, w') => f a w'
  | (Throw err, w') => (Throw err, w')
  end.

(** [try { body } catch (err) { handler }]. *)
Definition try_catch {A : Type} (body : Js A) (handler : Thrown → Js A) : Js A :=
  λ w,
    match body w with
    | (Value a, w') => (Value a, w')
    | (Throw err, w') => handler err w'
    end.

Definition record_call (e : Event) : Js unit :=
  λ w, (Value (), mkWorld (arrays w) (calls w ++ [e])).

(** The result of a collaborator that may throw. *)
Definition lift_result {A : Type} (r : Result A) : Js A := λ w, (r, w).

(** The elements of the array behind a reference. *)
Definition array_contents (w : World) (a : loc) : list Destination :=
  default [] (arrays w !! a).

Definition array_read (a : loc) : Js (list Destination) :=
  λ w, (Value (array_contents w a), w).

(** [a.push(x)]. *)
Definition array_push (a : loc) (x : Destination) : Js unit :=
  λ w, (Value (), mkWorld (<[a := array_contents w a ++ [x]]> (arrays w)) (calls w)).

(** An array literal: a new array, at a reference no array has yet. *)
Definition array_alloc (elements : list Destination) : Js loc :=
  λ w,
    let a := fresh (dom (arrays w)) in
    (Value a, mkWorld (<[a := elements]> (arrays w)) (calls w)).

(** A computation that leaves every array as it was. *)
Definition preserves_arrays {A : Type} (m : Js A) : Prop :=
  ∀ w, arrays (m w).2 = arrays w.

(** A computation that only adds to the call log. *)
Definition extends_calls {A : Type} (m : Js A) : Prop :=
  ∀ w, ∃ added, calls (m w).2 = calls w ++ added.

(** ** Collaborators *)

(** IDaemon.ts. [getRandomOutputsByAmount] and [sendTransaction] are the
    asynchronous requests; awaiting them yields a value or throws. *)
Record IDaemon : Type := mkDaemon {
  getNetworkBlockCount : Z;
  nodeFee : string * Z;
  getRandomOutputsByAmount : list Z → Z → Result (list Bucket);
  sendTransaction : string → Result bool;
}.

(** SubWallets.ts, the methods [Transfer.ts] calls. *)
Record SubWallets : Type := mkSubWallets {
  getAddresses : list string;
  getPrimaryAddress : string;
  getPrivateViewKey : string;
  getTransactionInputsForAmount :
    Z → list string → Z → list TxInputAndOwner.t * Z;
}.

Definition daemon_getRandomOutputsByAmount
    (daemon : IDaemon) (amounts : list Z) (requestedOuts : Z) : Js (list Bucket) :=
  _ ← record_call (CallGetRandomOutputsByAmount amounts requestedOuts);
  lift_result (getRandomOutputsByAmount daemon amounts requestedOuts).

Definition daemon_sendTransaction
    (daemon : IDaemon) (rawTransaction : string) : Js bool :=
  _ ← record_call (CallSendTransaction rawTransaction);
  lift_result (sendTransaction daemon rawTransaction).

Definition logger_log (message : string) : Js unit :=
  record_call (CallLog message).

(** ** getRingParticipants *)

(** Utilities.ts. *)
Class Utilities : Type := {
  prettyPrintAmount : Z → string;
}.

Section RingParticipants.

Context `{!Utilities}.

Definition explanation : string :=
  "https://gist.github.com/zpalmtree/80b3e80463225bcfb8f8432043cb594c".

(** The message of lines 247-249. *)
Definition no_outputs_message (amount : Z) : string :=
  "Failed to get any matching outputs for amount " +:+ pretty amount +:+
  " (" +:+ prettyPrintAmount amount +:+ "). Further explanation here: " +:+
  explanation.

(** The message of lines 256-259 and 282-285. *)
Definition not_enough_message (amount requestedOuts found : Z) : string :=
  "Failed to get enough matching outputs for amount " +:+ pretty amount +:+
  " (" +:+ prettyPrintAmount amount +:+ "). Needed outputs: " +:+
  pretty requestedOuts +:+ " " +:+
  ", found outputs: " +:+ pretty found +:+ ". Further explanation here: " +:+
  explanation.

(** [_.find(outs, ([outAmount, ignore]) => amount === outAmount)]. *)
Definition find_outputs (outs : list Bucket) (amount : Z) : option Bucket :=
  find (λ '(outAmount, ignore), bool_decide (amount = outAmount)) outs.

(** The loop of lines 240-262; [Some e] is [return e].  [foundOutputs]
    is the element of [outs] that [_.find] returns, a tuple, and line 253
    takes [.length] of that tuple. *)
Fixpoint check_amounts (outs : list Bucket) (mixin requestedOuts : Z)
    (amounts : list Z) : option WalletError :=
  match amounts with
  | [] => None
  | amount :: amounts' =>
      match find_outputs outs amount with
      | None =>
          Some (mkWalletError WalletErrorCode.NOT_ENOUGH_FAKE_OUTPUTS
                  (no_outputs_message amount))
      | Some foundOutputs =>
          if tuple_length foundOutputs <? mixin then
            Some (mkWalletError WalletErrorCode.NOT_ENOUGH_FAKE_OUTPUTS
                    (not_enough_message amount requestedOuts
                       (tuple_length foundOutputs)))
          else check_amounts outs mixin requestedOuts amounts'
      end
  end.

(** [outputs.map(([index, key]) => ({ globalIndex: index, key: key }))]. *)
Definition reshape (outputs : list (Z * string)) : list RandomOutput.t :=
  map (λ '(index, key), RandomOutput.mk index key) outputs.

(** The loop of lines 278-295 over the remaining buckets, [randomOuts]
    being the array filled so far. *)
Fixpoint collect_outputs (mixin requestedOuts : Z) (outs : list Bucket)
    (randomOuts : list (list RandomOutput.t))
    : WalletError + list (list RandomOutput.t) :=
  match outs with
  | [] => inr randomOuts
  | (amount, outputs) :: outs' =>
      if Z.of_nat (length outputs) <? mixin then
        inl (mkWalletError WalletErrorCode.NOT_ENOUGH_FAKE_OUTPUTS
               (not_enough_message amount requestedOuts
                  (Z.of_nat (length outputs))))
      else
        collect_outputs mixin requestedOuts outs'
          (randomOuts ++ [reshape outputs])
  end.

(** [inputs.map((input) => input.input.amount)]. *)
Definition input_amounts (inputs : list TxInputAndOwner.t) : list Z :=
  map (λ input, TxInput.amount (TxInputAndOwner.input input)) inputs.

Definition getRingParticipants (inputs : list TxInputAndOwner.t) (mixin : Z)
    (daemon : IDaemon) : Js (WalletError + list (list RandomOutput.t)) :=
  if bool_decide (mixin = 0) then mret (inr [])
  else
    let requestedOuts := mixin + 1 in
    let amounts := input_amounts inputs in
    outs ← daemon_getRandomOutputsByAmount daemon amounts mixin;
    if bool_decide (Z.of_nat (length outs) = 0) then
      mret (inl (newWalletError WalletErrorCode.DAEMON_OFFLINE))
    else
      match check_amounts outs mixin requestedOuts amounts with
      | Some error => mret (inl error)
      | None =>
          if bool_decide (Z.of_nat (length outs) ≠ Z.of_nat (length amounts)) then
            mret (inl (newWalletError WalletErrorCode.NOT_ENOUGH_FAKE_OUTPUTS))
          else
            mret (collect_outputs mixin requestedOuts outs [])
      end.

End RingParticipants.

(** ** Imported modules *)

(** ValidateParameters.ts: each check returns [SUCCESS] or its error. *)
Class ValidateParameters : Type := {
  validateDestinations : list Destination → WalletError;
  validateIntegratedAddresses : list Destination → string → WalletError;
  validateOurAddresses : list string → SubWallets → WalletError;
  validateAmount :
    list Destination → Z → list string → SubWallets → Z → WalletError;
  validateMixin : Z → Z → WalletError;
  validatePaymentID : string → WalletError;
}.

(** Config.ts: [config.mixinLimits.getDefaultMixinByHeight] and
    [config.minimumFee]. *)
Class Config : Type := {
  getDefaultMixinByHeight : Z → Z;
  minimumFee : Z;
}.

(** CnUtils.ts: the [CryptoUtils] object; each method may throw. *)
Class CryptoUtils : Type := {
  decodeAddress : string → Result DecodedAddress.t;
  generateKeyImage :
    string → string → string → string → Z → Result (string * string);
  createTransaction :
    list TxDestination.t → list Output.t → list (list RandomOutput.t) →
    Z → Z → string → Result CreatedTransaction.t;
}.

(** ** validateTransaction *)

Section Validate.

Context `{!ValidateParameters}.

Definition validateTransaction (destinations : list Destination)
    (mixin fee : Z) (paymentID : string) (subWalletsToTakeFrom : list string)
    (changeAddress : string) (currentHeight : Z) (subWallets : SubWallets)
    : WalletError :=
  let error := validateDestinations destinations in
  if negb (deepEqual error SUCCESS) then error else
  let error := validateIntegratedAddresses destinations paymentID in
  if negb (deepEqual error SUCCESS) then error else
  let error := validateOurAddresses subWalletsToTakeFrom subWallets in
  if negb (deepEqual error SUCCESS) then error else
  let error :=
    validateAmount destinations fee subWalletsToTakeFrom subWallets
      currentHeight in
  if negb (deepEqual error SUCCESS) then error else
  let error := validateMixin mixin currentHeight in
  if negb (deepEqual error SUCCESS) then error else
  let error := validatePaymentID paymentID in
  if negb (deepEqual error SUCCESS) then error else
  let error := validateOurAddresses [changeAddress] subWallets in
  if negb (deepEqual error SUCCESS) then error else
  SUCCESS.

(** The seven stages in the order the specification lists them, each
    applied to the arguments of the request. *)
Definition validation_stages (destinations : list Destination)
    (mixin fee : Z) (paymentID : string) (subWalletsToTakeFrom : list string)
    (changeAddress : string) (currentHeight : Z) (subWallets : SubWallets)
    : list WalletError :=
  [ validateDestinations destinations;
    validateIntegratedAddresses destinations paymentID;
    validateOurAddresses subWalletsToTakeFrom subWallets;
    validateAmount destinations fee subWalletsToTakeFrom subWallets
      currentHeight;
    validateMixin mixin currentHeight;
    validatePaymentID paymentID;
    validateOurAddresses [changeAddress] subWallets ].

(** The error of the first stage that fails, [SUCCESS] if none does. *)
Fixpoint first_failure (stages : list WalletError) : WalletError :=
  match stages with
  | [] => SUCCESS
  | error :: stages' =>
      if decide (error = SUCCESS) then first_failure stages' else error
  end.

End Validate.

(** ** sendTransactionAdvanced *)

#[global] Instance Result_ret : MRet Result := λ A a, Value a.

#[global] Instance Result_bind : MBind Result := λ A B f r,
  match r with
  | Value a => f a
  | Throw err => Throw err
  end.

(** [_.sumBy(addressesAndAmounts, ([address, amount]) => amount)]. *)
Definition sumBy_amount (addressesAndAmounts : list Destination) : Z :=
  foldl (λ sum '(address, amount), sum + amount) 0 addressesAndAmounts.

(** The arguments handed to [CryptoUtils.createTransaction]. *)
Record TransactionDraft : Type := mkDraft {
  transfers : list TxDestination.t;
  ourOutputs : list Output.t;
  randomOuts : list (list RandomOutput.t);
  draftMixin : Z;
  draftFee : Z;
  draftPaymentID : string;
}.

(** [if (r instanceof WalletError) return r], then the rest. *)
Definition unless_error {A B : Type} (r : WalletError + A)
    (rest : A → Js (WalletError + B)) : Js (WalletError + B) :=
  match r with
  | inl error => mret (inl error)
  | inr a => rest a
  end.

Section Send.

Context `{!Utilities, !ValidateParameters, !Config, !CryptoUtils}.

(** Lines 132-144: the [map] over the destinations, which also assigns
    [paymentID] from every integrated address it meets. *)
Fixpoint prepare_transfers (addressesAndAmounts : list Destination)
    (paymentID : string) : Result (list TxDestination.t * string) :=
  match addressesAndAmounts with
  | [] => mret ([], paymentID)
  | (address, amount) :: rest =>
      decoded ← decodeAddress address;
      let paymentID :=
        if bool_decide (DecodedAddress.paymentId decoded ≠ EmptyString)
        then DecodedAddress.paymentId decoded else paymentID in
      '(transfers, paymentID) ← prepare_transfers rest paymentID;
      mret (TxDestination.mk amount decoded :: transfers, paymentID)
  end.

(** Lines 150-172: one [Output] per selected input. *)
Definition derive_output (subWallets : SubWallets)
    (input : TxInputAndOwner.t) : Result Output.t :=
  '(keyImage, tmpSecretKey) ←
    generateKeyImage
      (TxInput.transactionPublicKey (TxInputAndOwner.input input))
      (getPrivateViewKey subWallets)
      (TxInputAndOwner.publicSpendKey input)
      (TxInputAndOwner.privateSpendKey input)
      (TxInput.transactionIndex (TxInputAndOwner.input input));
  mret (Output.mk
          (TxInput.amount (TxInputAndOwner.input input))
          (TxInput.globalOutputIndex (TxInputAndOwner.input input))
          (TxInput.transactionIndex (TxInputAndOwner.input input))
          (OutputKeys.mk tmpSecretKey
             (TxInputAndOwner.privateSpendKey input)
             (TxInputAndOwner.publicSpendKey input))
          (TxInput.key (TxInputAndOwner.input input))
          keyImage).

Fixpoint derive_outputs (subWallets : SubWallets)
    (inputs : list TxInputAndOwner.t) : Result (list Output.t) :=
  match inputs with
  | [] => mret []
  | input :: inputs' =>
      output ← derive_output subWallets input;
      outputs ← derive_outputs subWallets inputs';
      mret (output :: outputs)
  end.

(** Lines 87-107: the defaults of the optional parameters. *)
Definition default_mixin (daemon : IDaemon) (mixin : option Z) : Z :=
  match mixin with
  | None => getDefaultMixinByHeight (getNetworkBlockCount daemon)
  | Some mixin => mixin
  end.

Definition default_fee (fee : option Z) : Z :=
  match fee with
  | None => minimumFee
  | Some fee => fee
  end.

Definition default_paymentID (paymentID : option string) : string :=
  match paymentID with
  | None => EmptyString
  | Some paymentID => paymentID
  end.

Definition default_subWalletsToTakeFrom (subWallets : SubWallets)
    (subWalletsToTakeFrom : option (list string)) : list string :=
  match subWalletsToTakeFrom with
  | None | Some [] => getAddresses subWallets
  | Some addresses => addresses
  end.

Definition default_changeAddress (subWallets : SubWallets)
    (changeAddress : option string) : string :=
  match changeAddress with
  | None => getPrimaryAddress subWallets
  | Some changeAddress =>
      if bool_decide (changeAddress = EmptyString)
      then getPrimaryAddress subWallets else changeAddress
  end.

(** Lines 109-114: the node fee is pushed to the caller's array. *)
Definition add_node_fee (daemon : IDaemon) (addressesAndAmounts : loc)
    : Js unit :=
  let '(feeAddress, feeAmount) := nodeFee daemon in
  if bool_decide (feeAmount ≠ 0)
  then array_push addressesAndAmounts (feeAddress, feeAmount)
  else mret ().

(** The destinations once the node fee, if any, has been pushed. *)
Definition with_node_fee (daemon : IDaemon)
    (destinations : list Destination) : list Destination :=
  if bool_decide ((nodeFee daemon).2 ≠ 0)
  then destinations ++ [nodeFee daemon] else destinations.

(** Lines 116-180: from the validation to the ring participants. *)
Definition draftTransaction (daemon : IDaemon) (subWallets : SubWallets)
    (addressesAndAmounts : loc) (mixin fee : Z) (paymentID : string)
    (subWalletsToTakeFrom : list string) (changeAddress : string)
    : Js (WalletError + TransactionDraft) :=
  destinations ← array_read addressesAndAmounts;
  _ ← record_call
        (CallValidateTransaction destinations mixin fee paymentID
           subWalletsToTakeFrom changeAddress (getNetworkBlockCount daemon));
  let error :=
    validateTransaction destinations mixin fee paymentID
      subWalletsToTakeFrom changeAddress (getNetworkBlockCount daemon)
      subWallets in
  if negb (deepEqual error SUCCESS) then mret (inl error) else
  destinations ← array_read addressesAndAmounts;
  let totalAmount := sumBy_amount destinations + fee in
  '(transfers, paymentID) ← lift_result (prepare_transfers destinations paymentID);
  _ ← record_call
        (CallGetTransactionInputsForAmount totalAmount subWalletsToTakeFrom
           (getNetworkBlockCount daemon));
  let '(inputs, foundMoney) :=
    getTransactionInputsForAmount subWallets totalAmount subWalletsToTakeFrom
      (getNetworkBlockCount daemon) in
  ourOutputs ← lift_result (derive_outputs subWallets inputs);
  randomOuts ← getRingParticipants inputs mixin daemon;
  unless_error randomOuts (λ randomOuts,
    mret (inr (mkDraft transfers ourOutputs randomOuts mixin fee paymentID))).

(** Lines 182-197: the build, with its [catch].  The handler calls
    [err.toString()] twice, for the log and for the error it returns, and
    is not itself inside a [try]. *)
Definition buildTransaction (draft : TransactionDraft)
    : Js (WalletError + CreatedTransaction.t) :=
  try_catch
    (_ ← record_call
           (CallCreateTransaction (transfers draft) (ourOutputs draft)
              (randomOuts draft) (draftMixin draft) (draftFee draft)
              (draftPaymentID draft));
     tx ← lift_result
            (createTransaction (transfers draft) (ourOutputs draft)
               (randomOuts draft) (draftMixin draft) (draftFee draft)
               (draftPaymentID draft));
     mret (inr tx))
    (λ err,
       text ← lift_result (toString err);
       _ ← logger_log ("Failed to create transaction: " +:+ text);
       text ← lift_result (toString err);
       mret (inl (mkWalletError WalletErrorCode.UNKNOWN_ERROR text))).

(** Lines 199-210: the relay, with its [catch]. *)
Definition relayTransaction (daemon : IDaemon) (tx : CreatedTransaction.t)
    : Js (WalletError + string) :=
  try_catch
    (relaySuccess ← daemon_sendTransaction daemon
                      (CreatedTransaction.rawTransaction tx);
     if relaySuccess : bool then mret (inr (CreatedTransaction.hash tx))
     else mret (inl (newWalletError WalletErrorCode.DAEMON_ERROR)))
    (λ err, mret (inl (newWalletError WalletErrorCode.DAEMON_OFFLINE))).

Definition sendTransactionAdvanced (daemon : IDaemon) (subWallets : SubWallets)
    (addressesAndAmounts : loc) (mixin fee : option Z)
    (paymentID : option string) (subWalletsToTakeFrom : option (list string))
    (changeAddress : option string) : Js (WalletError + string) :=
  let mixin := default_mixin daemon mixin in
  let fee := default_fee fee in
  let paymentID := default_paymentID paymentID in
  let subWalletsToTakeFrom :=
    default_subWalletsToTakeFrom subWallets subWalletsToTakeFrom in
  let changeAddress := default_changeAddress subWallets changeAddress in
  _ ← add_node_fee daemon addressesAndAmounts;
  draft ← draftTransaction daemon subWallets addressesAndAmounts mixin fee
            paymentID subWalletsToTakeFrom changeAddress;
  unless_error draft (λ draft,
    tx ← buildTransaction draft;
    unless_error tx (λ tx, relayTransaction daemon tx)).

(** Lines 45-60: one destination in a new array, every other parameter
    but the payment ID left [undefined]. *)
Definition sendTransactionBasic (daemon : IDaemon) (subWallets : SubWallets)
    (destination : string) (amount : Z) (paymentID : option string)
    : Js (WalletError + string) :=
  addressesAndAmounts ← array_alloc [(destination, amount)];
  sendTransactionAdvanced daemon subWallets addressesAndAmounts None None
    paymentID None None.

End Send.

(** ** Concrete collaborators, used to run the code on examples *)

Module Fixture.

Definition utilities : Utilities := {| prettyPrintAmount := pretty |}.

Definition config : Config :=
  {| getDefaultMixinByHeight := λ height, 1; minimumFee := 10 |}.

(** Validators that accept everything but a mixin above [maxMixin]. *)
Definition validators (maxMixin : Z) : ValidateParameters :=
  {| validateDestinations := λ _, SUCCESS;
     validateIntegratedAddresses := λ _ _, SUCCESS;
     validateOurAddresses := λ _ _, SUCCESS;
     validateAmount := λ _ _ _ _ _, SUCCESS;
     validateMixin := λ mixin height,
       if mixin <=? maxMixin then SUCCESS
       else newWalletError (WalletErrorCode.OTHER 1);
     validatePaymentID := λ _, SUCCESS |}.

(** Validators that accept everything but a total, fee included, above
    [balance]. *)
Definition validators_with_balance (balance : Z) : ValidateParameters :=
  {| validateDestinations := λ _, SUCCESS;
     validateIntegratedAddresses := λ _ _, SUCCESS;
     validateOurAddresses := λ _ _, SUCCESS;
     validateAmount := λ destinations fee _ _ _,
       if sumBy_amount destinations + fee <=? balance then SUCCESS
       else newWalletError (WalletErrorCode.OTHER 2);
     validateMixin := λ _ _, SUCCESS;
     validatePaymentID := λ _, SUCCESS |}.

Definition crypto (build : Result CreatedTransaction.t) : CryptoUtils :=
  {| decodeAddress := λ address,
       Value (DecodedAddress.mk "view" "spend" EmptyString);
     generateKeyImage := λ _ _ _ _ _, Value ("image", "ephemeral")%string;
     createTransaction := λ _ _ _ _ _ _, build |}.

Definition tx : CreatedTransaction.t := CreatedTransaction.mk "raw" "hash".

(** A codec that refuses the address [bad], reads the payment IDs [A] and
    [B] off two integrated addresses and none off any other address. *)
Definition codec : CryptoUtils :=
  {| decodeAddress := λ address,
       if bool_decide (address = "bad") then Throw "Error: invalid address"
       else if bool_decide (address = "integratedA")
       then Value (DecodedAddress.mk "view" "spend" "A")
       else if bool_decide (address = "integratedB")
       then Value (DecodedAddress.mk "view" "spend" "B")
       else Value (DecodedAddress.mk "view" "spend" EmptyString);
     generateKeyImage := λ txKey viewKey publicKey privateKey index,
       Value ("image of " +:+ txKey, "ephemeral of " +:+ privateKey);
     createTransaction := λ _ _ _ _ _ _, Value tx |}.

Definition input_of (amount : Z) : TxInputAndOwner.t :=
  TxInputAndOwner.mk (TxInput.mk "txkey" 0 0 amount "key") "public" "private".

(** [n] decoys with global indexes 0 .. n-1. *)
Definition decoys (n : nat) : list (Z * string) :=
  map (λ i, (Z.of_nat i, "decoy"%string)) (seq 0 n).

Definition daemon (fee : string * Z) (outs : Result (list Bucket))
    (relay : Result bool) : IDaemon :=
  {| getNetworkBlockCount := 1000;
     nodeFee := fee;
     getRandomOutputsByAmount := λ _ _, outs;
     sendTransaction := λ _, relay |}.

Definition subWallets (inputs : list TxInputAndOwner.t) : SubWallets :=
  {| getAddresses := ["ours"%string];
     getPrimaryAddress := "ours";
     getPrivateViewKey := "view";
     getTransactionInputsForAmount := λ total _ _, (inputs, total) |}.

Definition array : loc := 1%positive.

(** A store whose one array holds [destinations]; nothing called yet. *)
Definition world (destinations : list Destination) : World :=
  mkWorld {[ array := destinations ]} [].

End Fixture.

(** * Properties *)

(** Unfolds the sequencing of [Js] and [Result] computations. *)
Ltac js_unfold :=
  unfold mbind, mret, Js_bind, Js_ret, Result_bind, Result_ret,
    daemon_getRandomOutputsByAmount, daemon_sendTransaction, logger_log,
    record_call, lift_result, array_read, array_push, try_catch,
    unless_error in *.

Create HintDb transfer.

#[local] Hint Unfold preserves_arrays extends_calls : transfer.

(** ** The loops of getRingParticipants *)

Section RingParticipantsLemmas.

Context `{!Utilities}.

Lemma find_outputs_Some outs amount bucket :
  find_outputs outs amount = Some bucket →
  bucket.1 = amount ∧ bucket ∈ outs.
Proof.
  unfold find_outputs. intros Hfind.
  apply find_some in Hfind as [Hin Heq].
  destruct bucket as [outAmount outputs]. simpl.
  apply bool_decide_eq_true in Heq.
  split; [done | by apply list_elem_of_In].
Qed.

Lemma find_outputs_None outs amount :
  find_outputs outs amount = None → ∀ outputs, (amount, outputs) ∉ outs.
Proof.
  unfold find_outputs. intros Hfind outputs Hin.
  apply list_elem_of_In in Hin.
  pose proof (find_none _ _ Hfind _ Hin) as Hno. simpl in Hno.
  by apply bool_decide_eq_false in Hno.
Qed.

(** The first loop lets a request through exactly when every amount
    has a bucket and [mixin] is at most 2, the length of a tuple. *)
Lemma check_amounts_None outs mixin requestedOuts amounts :
  check_amounts outs mixin requestedOuts amounts = None ↔
  amounts = [] ∨
  (mixin ≤ 2 ∧ Forall (λ amount, ∃ outputs, (amount, outputs) ∈ outs) amounts).
Proof.
  induction amounts as [|amount amounts IH]; simpl.
  - split; [by left | done].
  - destruct (find_outputs outs amount) as [[outAmount outputs]|] eqn:Hfind.
    + apply find_outputs_Some in Hfind as [Heq Hin]. simpl in Heq. subst outAmount.
      unfold tuple_length. destruct (Z.ltb_spec 2 mixin) as [Hlt|Hle].
      * split; [done |]. intros [?|[? _]]; [done | lia].
      * rewrite IH. split.
        -- intros [->|[_ Hall]]; right; (split; [done |]);
             constructor; eauto.
        -- intros [?|[_ Hall]]; [done |]. right. split; [done |].
           by inversion Hall.
    + split; [done |]. intros [?|[_ Hall]]; [done |].
      inversion Hall as [|? ? [outputs Hin] _]; subst.
      by apply (find_outputs_None _ _ Hfind) in Hin.
Qed.

(** With [mixin] above 2 the first loop stops at the first amount that
    has a bucket, whatever the bucket holds. *)
Lemma check_amounts_tuple_length outs mixin requestedOuts amount amounts bucket :
  2 < mixin →
  find_outputs outs amount = Some bucket →
  check_amounts outs mixin requestedOuts (amount :: amounts) =
    Some (mkWalletError WalletErrorCode.NOT_ENOUGH_FAKE_OUTPUTS
            (not_enough_message amount requestedOuts 2)).
Proof.
  intros Hmixin Hfind. simpl. rewrite Hfind. unfold tuple_length.
  by destruct (Z.ltb_spec 2 mixin); [|lia].
Qed.

(** The second loop keeps the buckets in the order of the answer. *)
Lemma collect_outputs_inr mixin requestedOuts outs randomOuts sets :
  collect_outputs mixin requestedOuts outs randomOuts = inr sets ↔
  sets = randomOuts ++ map (λ bucket, reshape bucket.2) outs ∧
  Forall (λ bucket : Bucket, mixin ≤ Z.of_nat (length bucket.2)) outs.
Proof.
  revert randomOuts. induction outs as [|[amount outputs] outs IH];
    intros randomOuts; simpl.
  - rewrite app_nil_r. split; [intros [= <-]; by split | intros [-> _]; done].
  - destruct (Z.ltb_spec (Z.of_nat (length outputs)) mixin) as [Hlt|Hle].
    + split; [done |]. intros [_ Hall]. inversion Hall; simpl in *; lia.
    + rewrite IH, <- app_assoc. simpl. split.
      * intros [-> Hall]. split; [done |]. by constructor.
      * intros [-> Hall]. split; [done |]. by inversion Hall.
Qed.

Lemma reshape_length outputs : length (reshape outputs) = length outputs.
Proof. unfold reshape. by rewrite length_map. Qed.

(** The second loop stops at the first bucket with fewer than [mixin]
    entries. *)
Lemma collect_outputs_inl mixin requestedOuts sufficient amount outputs rest
    randomOuts :
  Forall (λ bucket : Bucket, mixin ≤ Z.of_nat (length bucket.2)) sufficient →
  Z.of_nat (length outputs) < mixin →
  collect_outputs mixin requestedOuts
    (sufficient ++ (amount, outputs) :: rest) randomOuts =
  inl (mkWalletError WalletErrorCode.NOT_ENOUGH_FAKE_OUTPUTS
         (not_enough_message amount requestedOuts
            (Z.of_nat (length outputs)))).
Proof.
  intros Hsufficient Hfew. revert randomOuts.
  induction Hsufficient as [|[amount' outputs'] sufficient Hle _ IH];
    intros randomOuts; simpl in *.
  - by destruct (Z.ltb_spec (Z.of_nat (length outputs)) mixin); [|lia].
  - destruct (Z.ltb_spec (Z.of_nat (length outputs')) mixin); [lia |].
    apply IH.
Qed.

(** What the code does for a non-zero [mixin], as one equation. *)
Lemma getRingParticipants_nonzero inputs mixin daemon w :
  mixin ≠ 0 →
  getRingParticipants inputs mixin daemon w =
    let amounts := input_amounts inputs in
    let w' :=
      mkWorld (arrays w)
        (calls w ++ [CallGetRandomOutputsByAmount amounts mixin]) in
    match getRandomOutputsByAmount daemon amounts mixin with
    | Throw err => (Throw err, w')
    | Value outs =>
        if bool_decide (Z.of_nat (length outs) = 0) then
          (Value (inl (newWalletError WalletErrorCode.DAEMON_OFFLINE)), w')
        else
          match check_amounts outs mixin (mixin + 1) amounts with
          | Some error => (Value (inl error), w')
          | None =>
              if bool_decide (Z.of_nat (length outs) ≠ Z.of_nat (length amounts))
              then (Value (inl (newWalletError
                                  WalletErrorCode.NOT_ENOUGH_FAKE_OUTPUTS)), w')
              else (Value (collect_outputs mixin (mixin + 1) outs []), w')
          end
    end.
Proof.
  intros Hmixin. unfold getRingParticipants.
  rewrite bool_decide_eq_false_2 by done. js_unfold. simpl.
  destruct (getRandomOutputsByAmount _ _ _) as [outs|err]; [|done].
  destruct (bool_decide (Z.of_nat (length outs) = 0)); [done |].
  destruct (check_amounts _ _ _ _); [done |].
  by destruct (bool_decide _).
Qed.

End RingParticipantsLemmas.

(** ** Ring-participant resolution *)

Section RingParticipantsClaims.

Context `{!Utilities}.

(** C1 as amended: when the per-amount loop raises no error and the
    answer has as many buckets as there are inputs, a bucket with fewer
    than [mixin] entries makes the resolution fail with
    [NOT_ENOUGH_FAKE_OUTPUTS]; the message names the amount of the
    first such bucket in the order of the answer, [mixin + 1] as the
    number needed and the number of entries of that bucket as the
    number found. *)
Theorem getRingParticipants_insufficient_bucket inputs mixin daemon w
    sufficient amount outputs rest :
  mixin ≠ 0 →
  getRandomOutputsByAmount daemon (input_amounts inputs) mixin =
    Value (sufficient ++ (amount, outputs) :: rest) →
  Forall (λ bucket : Bucket, mixin ≤ Z.of_nat (length bucket.2)) sufficient →
  Z.of_nat (length outputs) < mixin →
  check_amounts (sufficient ++ (amount, outputs) :: rest) mixin (mixin + 1)
    (input_amounts inputs) = None →
  length (sufficient ++ (amount, outputs) :: rest) = length inputs →
  (getRingParticipants inputs mixin daemon w).1 =
    Value (inl (mkWalletError WalletErrorCode.NOT_ENOUGH_FAKE_OUTPUTS
                  (not_enough_message amount (mixin + 1)
                     (Z.of_nat (length outputs))))).
Proof.
  intros Hmixin Hanswer Hsufficient Hfew Hcheck Hlen.
  rewrite getRingParticipants_nonzero by done. simpl.
  rewrite Hanswer, Hcheck.
  rewrite bool_decide_eq_false_2
    by (rewrite length_app; simpl; lia).
  rewrite bool_decide_eq_false_2.
  - simpl. by rewrite collect_outputs_inl.
  - intros Hne. apply Hne. f_equal. unfold input_amounts.
    rewrite length_map. exact Hlen.
Qed.

(** C2 as amended: with [mixin = 0] the daemon is not asked for
    outputs (the store and the call log are left as they were) and the
    result is the empty array, whatever the number of inputs. *)
Theorem getRingParticipants_mixin_zero inputs daemon w :
  getRingParticipants inputs 0 daemon w = (Value (inr []), w) ∧
  network_calls (calls (getRingParticipants inputs 0 daemon w).2) =
    network_calls (calls w).
Proof. done. Qed.

(** C3 as amended: a successful resolution with a non-zero [mixin]
    returns one decoy list per bucket of the answer, in the order of
    the answer, each the bucket's entries reshaped in their order; the
    lists are as many as the inputs, each holds at least [mixin]
    entries, and every input's amount has a bucket in the answer. *)
Theorem getRingParticipants_success inputs mixin daemon w sets w' :
  mixin ≠ 0 →
  getRingParticipants inputs mixin daemon w = (Value (inr sets), w') →
  ∃ outs,
    getRandomOutputsByAmount daemon (input_amounts inputs) mixin = Value outs ∧
    sets = map (λ bucket, reshape bucket.2) outs ∧
    length sets = length inputs ∧
    Forall (λ decoys, mixin ≤ Z.of_nat (length decoys)) sets ∧
    Forall (λ input,
              ∃ outputs,
                (TxInput.amount (TxInputAndOwner.input input), outputs) ∈ outs)
      inputs.
Proof.
  intros Hmixin. rewrite getRingParticipants_nonzero by done. simpl.
  destruct (getRandomOutputsByAmount _ _ _) as [outs|err]; [|done].
  case_bool_decide; [done |].
  destruct (check_amounts _ _ _ _) eqn:Hcheck; [done |].
  case_bool_decide as Hlen; [done |].
  intros [= Hcollect _]. apply collect_outputs_inr in Hcollect as [-> Hall].
  simpl.
  apply Nat2Z.inj in Hlen.
  unfold input_amounts in Hlen. rewrite length_map in Hlen.
  exists outs. split_and!; [done | done | by rewrite length_map | |].
  - apply (proj2 (Forall_map _ _ _)). eapply Forall_impl; [exact Hall |].
    intros bucket Hle. simpl. by rewrite reshape_length.
  - apply check_amounts_None in Hcheck as [Hnil|[_ Hpresent]].
    + apply map_eq_nil in Hnil. by subst.
    + unfold input_amounts in Hpresent.
      by apply (proj1 (Forall_map _ _ _)) in Hpresent.
Qed.

(** C4: an answer without buckets gives [DAEMON_OFFLINE], with no
    message, for any inputs; the per-amount loops are not reached, so
    the error is never [NOT_ENOUGH_FAKE_OUTPUTS]. *)
Theorem getRingParticipants_empty_answer inputs mixin daemon w :
  mixin ≠ 0 →
  getRandomOutputsByAmount daemon (input_amounts inputs) mixin = Value [] →
  (getRingParticipants inputs mixin daemon w).1 =
    Value (inl (newWalletError WalletErrorCode.DAEMON_OFFLINE)) ∧
  ∀ error,
    (getRingParticipants inputs mixin daemon w).1 = Value (inl error) →
    errorCode error ≠ WalletErrorCode.NOT_ENOUGH_FAKE_OUTPUTS.
Proof.
  intros Hmixin Hanswer. rewrite getRingParticipants_nonzero by done.
  simpl. rewrite Hanswer. simpl. split; [done |].
  by intros error [= <-].
Qed.

(** C5 as amended: when the answer is not empty and the per-amount
    loop raises no error, an answer whose number of buckets differs
    from the number of inputs (one amount per input, duplicates
    counted) gives [NOT_ENOUGH_FAKE_OUTPUTS] with no message. *)
Theorem getRingParticipants_length_mismatch inputs mixin daemon w outs :
  mixin ≠ 0 →
  getRandomOutputsByAmount daemon (input_amounts inputs) mixin = Value outs →
  outs ≠ [] →
  check_amounts outs mixin (mixin + 1) (input_amounts inputs) = None →
  length outs ≠ length inputs →
  (getRingParticipants inputs mixin daemon w).1 =
    Value (inl (newWalletError WalletErrorCode.NOT_ENOUGH_FAKE_OUTPUTS)).
Proof.
  intros Hmixin Hanswer Hne Hcheck Hlen.
  rewrite getRingParticipants_nonzero by done. simpl.
  rewrite Hanswer, Hcheck.
  rewrite bool_decide_eq_false_2 by (destruct outs; [done | simpl; lia]).
  rewrite bool_decide_eq_true_2; [done |].
  unfold input_amounts. rewrite length_map. lia.
Qed.

End RingParticipantsClaims.

(** C1 as stated fails at its own example: for inputs of amounts 100,
    100 and 250, [mixin = 3] and an answer with five decoys for 100 and
    two for 250, the error names amount 100, 4 outputs needed and 2
    found, not amount 250 with 3 needed. *)
Lemma getRingParticipants_example_counterexample :
  let result :=
    (@getRingParticipants Fixture.utilities
       (map Fixture.input_of [100; 100; 250]) 3
       (Fixture.daemon (EmptyString, 0)
          (Value [(100, Fixture.decoys 5); (250, Fixture.decoys 2)])
          (Value true))
       (Fixture.world [])).1 in
  result =
    Value (inl (mkWalletError WalletErrorCode.NOT_ENOUGH_FAKE_OUTPUTS
                  (@not_enough_message Fixture.utilities 100 4 2))) ∧
  result ≠
    Value (inl (mkWalletError WalletErrorCode.NOT_ENOUGH_FAKE_OUTPUTS
                  (@not_enough_message Fixture.utilities 250 3 2))).
Proof. split; [by vm_compute | by vm_compute]. Qed.

Lemma getRingParticipants_insufficient_bucket_witness :
  (@getRingParticipants Fixture.utilities (map Fixture.input_of [100; 250]) 2
     (Fixture.daemon (EmptyString, 0)
        (Value [(100, Fixture.decoys 5); (250, Fixture.decoys 1)]) (Value true))
     (Fixture.world [])).1 =
    Value (inl (mkWalletError WalletErrorCode.NOT_ENOUGH_FAKE_OUTPUTS
                  (@not_enough_message Fixture.utilities 250 3 1))).
Proof.
  apply (@getRingParticipants_insufficient_bucket Fixture.utilities
           (map Fixture.input_of [100; 250]) 2 _ _
           [(100, Fixture.decoys 5)] 250 (Fixture.decoys 1) []).
  - lia.
  - reflexivity.
  - repeat constructor. simpl. lia.
  - simpl. lia.
  - reflexivity.
  - reflexivity.
Defined.

Lemma getRingParticipants_success_witness :
  ∃ outs,
    getRandomOutputsByAmount
      (Fixture.daemon (EmptyString, 0)
         (Value [(250, Fixture.decoys 2); (100, Fixture.decoys 1)]) (Value true))
      (input_amounts (map Fixture.input_of [100; 250])) 1 = Value outs ∧
    [reshape (Fixture.decoys 2); reshape (Fixture.decoys 1)] =
      map (λ bucket, reshape bucket.2) outs ∧
    length [reshape (Fixture.decoys 2); reshape (Fixture.decoys 1)] =
      length (map Fixture.input_of [100; 250]) ∧
    Forall (λ decoys, 1 ≤ Z.of_nat (length decoys))
      [reshape (Fixture.decoys 2); reshape (Fixture.decoys 1)] ∧
    Forall (λ input,
              ∃ outputs,
                (TxInput.amount (TxInputAndOwner.input input), outputs) ∈ outs)
      (map Fixture.input_of [100; 250]).
Proof.
  apply (@getRingParticipants_success Fixture.utilities
           (map Fixture.input_of [100; 250]) 1 _ (Fixture.world []) _
           (mkWorld (arrays (Fixture.world []))
              [CallGetRandomOutputsByAmount [100; 250] 1])).
  - lia.
  - reflexivity.
Defined.

Lemma getRingParticipants_empty_answer_witness :
  (@getRingParticipants Fixture.utilities (map Fixture.input_of [50]) 2
     (Fixture.daemon (EmptyString, 0) (Value []) (Value true))
     (Fixture.world [])).1 =
    Value (inl (newWalletError WalletErrorCode.DAEMON_OFFLINE)) ∧
  ∀ error,
    (@getRingParticipants Fixture.utilities (map Fixture.input_of [50]) 2
       (Fixture.daemon (EmptyString, 0) (Value []) (Value true))
       (Fixture.world [])).1 = Value (inl error) →
    errorCode error ≠ WalletErrorCode.NOT_ENOUGH_FAKE_OUTPUTS.
Proof.
  apply (@getRingParticipants_empty_answer Fixture.utilities).
  - lia.
  - reflexivity.
Defined.

Lemma getRingParticipants_length_mismatch_witness :
  (@getRingParticipants Fixture.utilities (map Fixture.input_of [100; 100]) 1
     (Fixture.daemon (EmptyString, 0) (Value [(100, Fixture.decoys 3)])
        (Value true))
     (Fixture.world [])).1 =
    Value (inl (newWalletError WalletErrorCode.NOT_ENOUGH_FAKE_OUTPUTS)).
Proof.
  apply (@getRingParticipants_length_mismatch Fixture.utilities
           (map Fixture.input_of [100; 100]) 1 _ _ [(100, Fixture.decoys 3)]).
  - lia.
  - reflexivity.
  - discriminate.
  - reflexivity.
  - simpl. lia.
Defined.

(** C2 as stated fails: with one input and [mixin = 0] the result is the
    empty array, whose length is not the number of inputs. *)
Lemma getRingParticipants_mixin_zero_counterexample :
  ¬ ∃ sets,
      (@getRingParticipants Fixture.utilities [Fixture.input_of 100] 0
         (Fixture.daemon (EmptyString, 0) (Value []) (Value true))
         (Fixture.world [])).1 = Value (inr sets) ∧
      length sets = length [Fixture.input_of 100] ∧
      Forall (λ decoys, decoys = []) sets.
Proof. intros (sets & [= <-] & Hlen & _). discriminate Hlen. Qed.

(** C3 as stated fails: for inputs of amounts 100 and 250, [mixin = 1]
    and an answer listing the bucket of 250 (two decoys) before the
    bucket of 100 (one decoy), the resolution succeeds; its first list
    has two entries, not [mixin], and is the bucket of 250 although the
    first input has amount 100. *)
Lemma getRingParticipants_alignment_counterexample :
  let inputs := map Fixture.input_of [100; 250] in
  let outs := [(250, [(7, "g"); (8, "h")]); (100, [(1, "a")])]%string in
  let sets :=
    [[RandomOutput.mk 7 "g"; RandomOutput.mk 8 "h"]; [RandomOutput.mk 1 "a"]] in
  (@getRingParticipants Fixture.utilities inputs 1
     (Fixture.daemon (EmptyString, 0) (Value outs) (Value true))
     (Fixture.world [])).1 = Value (inr sets) ∧
  ¬ Forall (λ decoys, Z.of_nat (length decoys) = 1) sets ∧
  ¬ Forall2 (λ input decoys,
               ∃ outputs,
                 (TxInput.amount (TxInputAndOwner.input input), outputs) ∈ outs ∧
                 decoys = reshape outputs)
      inputs sets.
Proof.
  simpl. split_and!; [done | |].
  - intros Hall. inversion Hall as [|? ? Hlen _]. discriminate Hlen.
  - intros Hall. inversion Hall as [|? ? ? ? (outputs & Hin & Heq) _]; subst.
    simpl in Hin.
    apply elem_of_cons in Hin as [Hfirst|Hin]; [discriminate Hfirst |].
    apply elem_of_cons in Hin as [Hsecond|Hin].
    + injection Hsecond as ->. discriminate Heq.
    + by apply elem_of_nil in Hin.
Qed.

(** C5 as stated fails: for two inputs of amount 100, [mixin = 1] and an
    answer of two buckets for 100, every requested amount has a
    sufficient bucket and the buckets (2) are more than the distinct
    amounts (1), yet the resolution succeeds. *)
Lemma getRingParticipants_distinct_amounts_counterexample :
  let inputs := map Fixture.input_of [100; 100] in
  let outs := [(100, [(1, "a")]); (100, [(2, "b")])]%string in
  outs ≠ [] ∧
  Forall (λ amount,
            ∃ outputs, (amount, outputs) ∈ outs ∧ 1 ≤ Z.of_nat (length outputs))
    (input_amounts inputs) ∧
  length outs ≠ length (remove_dups (input_amounts inputs)) ∧
  (@getRingParticipants Fixture.utilities inputs 1
     (Fixture.daemon (EmptyString, 0) (Value outs) (Value true))
     (Fixture.world [])).1 =
    Value (inr [[RandomOutput.mk 1 "a"]; [RandomOutput.mk 2 "b"]]).
Proof.
  simpl. split_and!; [done | | by vm_compute | done].
  repeat constructor; exists [(1, "a"%string)]; (split; [set_solver | simpl; lia]).
Qed.

(** ** Frame lemmas: which computations touch the arrays and the log *)

Section Frames.

Context {A B : Type}.

Lemma preserves_arrays_ret (a : A) : preserves_arrays (mret a).
Proof. done. Qed.

Lemma preserves_arrays_bind (m : Js A) (f : A → Js B) :
  preserves_arrays m → (∀ a, preserves_arrays (f a)) →
  preserves_arrays (m ≫= f).
Proof.
  intros Hm Hf w. js_unfold. specialize (Hm w).
  destruct (m w) as [[a|err] w1]; simpl in *; [|done].
  by rewrite Hf.
Qed.

Lemma preserves_arrays_try_catch (m : Js A) (h : Thrown → Js A) :
  preserves_arrays m → (∀ err, preserves_arrays (h err)) →
  preserves_arrays (try_catch m h).
Proof.
  intros Hm Hh w. js_unfold. specialize (Hm w).
  destruct (m w) as [[a|err] w1]; simpl in *; [done |].
  by rewrite Hh.
Qed.

Lemma preserves_arrays_lift_result (r : Result A) :
  preserves_arrays (lift_result r).
Proof. done. Qed.

Lemma extends_calls_ret (a : A) : extends_calls (mret a).
Proof. intros w. exists []. js_unfold. simpl. by rewrite app_nil_r. Qed.

Lemma extends_calls_bind (m : Js A) (f : A → Js B) :
  extends_calls m → (∀ a, extends_calls (f a)) → extends_calls (m ≫= f).
Proof.
  intros Hm Hf w. js_unfold. destruct (Hm w) as [added Hadded].
  destruct (m w) as [[a|err] w1]; simpl in *; [|by exists added].
  destruct (Hf a w1) as [added' Hadded']. exists (added ++ added').
  by rewrite Hadded', Hadded, app_assoc.
Qed.

Lemma extends_calls_try_catch (m : Js A) (h : Thrown → Js A) :
  extends_calls m → (∀ err, extends_calls (h err)) →
  extends_calls (try_catch m h).
Proof.
  intros Hm Hh w. js_unfold. destruct (Hm w) as [added Hadded].
  destruct (m w) as [[a|err] w1]; simpl in *; [by exists added |].
  destruct (Hh err w1) as [added' Hadded']. exists (added ++ added').
  by rewrite Hadded', Hadded, app_assoc.
Qed.

Lemma extends_calls_lift_result (r : Result A) :
  extends_calls (lift_result r).
Proof. intros w. exists []. simpl. by rewrite app_nil_r. Qed.

End Frames.

Lemma preserves_arrays_record_call e : preserves_arrays (record_call e).
Proof. done. Qed.

Lemma extends_calls_record_call e : extends_calls (record_call e).
Proof. intros w. by exists [e]. Qed.

Lemma preserves_arrays_array_read a : preserves_arrays (array_read a).
Proof. done. Qed.

Lemma extends_calls_array_read a : extends_calls (array_read a).
Proof. intros w. exists []. simpl. by rewrite app_nil_r. Qed.

Lemma extends_calls_array_push a x : extends_calls (array_push a x).
Proof. intros w. exists []. simpl. by rewrite app_nil_r. Qed.

Lemma preserves_arrays_unless_error {A B : Type}
    (r : WalletError + A) (rest : A → Js (WalletError + B)) :
  (∀ a, preserves_arrays (rest a)) → preserves_arrays (unless_error r rest).
Proof. intros Hrest. destruct r; [done | apply Hrest]. Qed.

Lemma extends_calls_unless_error {A B : Type}
    (r : WalletError + A) (rest : A → Js (WalletError + B)) :
  (∀ a, extends_calls (rest a)) → extends_calls (unless_error r rest).
Proof.
  intros Hrest. destruct r; [apply extends_calls_ret | apply Hrest].
Qed.

#[local] Hint Resolve preserves_arrays_ret preserves_arrays_bind
  preserves_arrays_try_catch preserves_arrays_lift_result
  preserves_arrays_record_call preserves_arrays_array_read
  preserves_arrays_unless_error
  extends_calls_ret extends_calls_bind extends_calls_try_catch
  extends_calls_lift_result extends_calls_record_call
  extends_calls_array_read extends_calls_array_push
  extends_calls_unless_error : transfer.

Lemma preserves_arrays_getRingParticipants `{!Utilities} inputs mixin daemon :
  preserves_arrays (getRingParticipants inputs mixin daemon).
Proof.
  unfold getRingParticipants, daemon_getRandomOutputsByAmount.
  case_bool_decide; [done |].
  apply preserves_arrays_bind; [auto with transfer |].
  intros outs. case_bool_decide; [done |].
  destruct (check_amounts _ _ _ _); [done |]. by case_bool_decide.
Qed.

Lemma extends_calls_getRingParticipants `{!Utilities} inputs mixin daemon :
  extends_calls (getRingParticipants inputs mixin daemon).
Proof.
  unfold getRingParticipants, daemon_getRandomOutputsByAmount.
  case_bool_decide; [auto with transfer |].
  apply extends_calls_bind; [auto with transfer |].
  intros outs. case_bool_decide; [auto with transfer |].
  destruct (check_amounts _ _ _ _); [auto with transfer |].
  case_bool_decide; auto with transfer.
Qed.

(** ** validateTransaction and sendTransactionAdvanced *)

Lemma sumBy_amount_app destinations destinations' :
  sumBy_amount (destinations ++ destinations') =
  sumBy_amount destinations + sumBy_amount destinations'.
Proof.
  unfold sumBy_amount. rewrite foldl_app.
  generalize (foldl (λ sum '(address, amount), sum + amount) 0 destinations).
  induction destinations' as [|[address amount] rest IH]; intros acc; simpl.
  - lia.
  - rewrite IH, (IH (0 + amount)). lia.
Qed.

Lemma sumBy_amount_push destinations address amount :
  sumBy_amount (destinations ++ [(address, amount)]) =
  sumBy_amount destinations + amount.
Proof. rewrite sumBy_amount_app. unfold sumBy_amount. simpl. lia. Qed.

Lemma deepEqual_SUCCESS error :
  negb (deepEqual error SUCCESS) = false ↔ error = SUCCESS.
Proof.
  unfold deepEqual. rewrite negb_false_iff. apply bool_decide_eq_true.
Qed.

Section SendLemmas.

Context `{!Utilities, !ValidateParameters, !Config, !CryptoUtils}.

(** The push of the node fee: what the array holds afterwards. *)
Lemma add_node_fee_spec daemon a w :
  ∃ w1,
    add_node_fee daemon a w = (Value (), w1) ∧
    array_contents w1 a = with_node_fee daemon (array_contents w a) ∧
    calls w1 = calls w ∧
    ∀ b, b ≠ a → array_contents w1 b = array_contents w b.
Proof.
  unfold add_node_fee, with_node_fee.
  destruct (nodeFee daemon) as [feeAddress feeAmount]. simpl.
  case_bool_decide.
  - eexists. split; [reflexivity |]. unfold array_contents. simpl.
    split_and!; [by rewrite lookup_insert_eq | done |].
    intros b Hb. by rewrite lookup_insert_ne.
  - by exists w.
Qed.

Lemma extends_calls_add_node_fee daemon a :
  extends_calls (add_node_fee daemon a).
Proof.
  intros w. destruct (add_node_fee_spec daemon a w) as (w1 & Heq & _ & Hcalls & _).
  exists []. rewrite Heq. simpl. by rewrite Hcalls, app_nil_r.
Qed.

Lemma preserves_arrays_buildTransaction draft :
  preserves_arrays (buildTransaction draft).
Proof. unfold buildTransaction, logger_log. auto 10 with transfer. Qed.

Lemma preserves_arrays_relayTransaction daemon tx :
  preserves_arrays (relayTransaction daemon tx).
Proof.
  unfold relayTransaction, daemon_sendTransaction.
  apply preserves_arrays_try_catch; [|auto with transfer].
  apply preserves_arrays_bind; [auto with transfer |].
  intros []; auto with transfer.
Qed.

Lemma extends_calls_buildTransaction draft :
  extends_calls (buildTransaction draft).
Proof. unfold buildTransaction, logger_log. auto 10 with transfer. Qed.

Lemma extends_calls_relayTransaction daemon tx :
  extends_calls (relayTransaction daemon tx).
Proof.
  unfold relayTransaction, daemon_sendTransaction.
  apply extends_calls_try_catch; [|auto with transfer].
  apply extends_calls_bind; [auto with transfer |].
  intros []; auto with transfer.
Qed.

End SendLemmas.

(** Cases on whether a stage succeeds; closes the case where it fails. *)
Ltac stage_cases e :=
  let Heq := fresh "Heq" in
  let Hne := fresh "Hne" in
  destruct (decide (e = SUCCESS)) as [Heq|Hne];
  [rewrite (bool_decide_eq_true_2 _ Heq); simpl
  |by rewrite (bool_decide_eq_false_2 _ Hne)].

Section Validation.

Context `{!ValidateParameters}.

(** [first_failure] returns the error of the stage that fails after a
    run of stages that all succeed. *)
Lemma first_failure_app passed error stages :
  Forall (λ e, e = SUCCESS) passed → error ≠ SUCCESS →
  first_failure (passed ++ error :: stages) = error.
Proof.
  intros Hpassed Herror. induction Hpassed as [|e passed -> _ IH]; simpl.
  - by destruct (decide (error = SUCCESS)).
  - by destruct (decide (SUCCESS = SUCCESS)).
Qed.

Lemma first_failure_SUCCESS stages :
  first_failure stages = SUCCESS ↔ Forall (λ e, e = SUCCESS) stages.
Proof.
  induction stages as [|e stages IH]; simpl; [done |].
  destruct (decide (e = SUCCESS)) as [->|Hne].
  - rewrite IH. split; [by constructor | by inversion 1].
  - split; [done | by inversion 1].
Qed.

Lemma validateTransaction_stages destinations mixin fee paymentID
    subWalletsToTakeFrom changeAddress currentHeight subWallets :
  validateTransaction destinations mixin fee paymentID subWalletsToTakeFrom
    changeAddress currentHeight subWallets =
  first_failure
    (validation_stages destinations mixin fee paymentID subWalletsToTakeFrom
       changeAddress currentHeight subWallets).
Proof.
  unfold validateTransaction, validation_stages, first_failure, deepEqual.
  stage_cases (validateDestinations destinations).
  stage_cases (validateIntegratedAddresses destinations paymentID).
  stage_cases (validateOurAddresses subWalletsToTakeFrom subWallets).
  stage_cases (validateAmount destinations fee subWalletsToTakeFrom
                 subWallets currentHeight).
  stage_cases (validateMixin mixin currentHeight).
  stage_cases (validatePaymentID paymentID).
  stage_cases (validateOurAddresses [changeAddress] subWallets).
  done.
Qed.

(** A failure of the destination check is the verdict. *)
Lemma validateTransaction_destinations_failure destinations mixin fee paymentID
    subWalletsToTakeFrom changeAddress currentHeight subWallets :
  validateDestinations destinations ≠ SUCCESS →
  validateTransaction destinations mixin fee paymentID subWalletsToTakeFrom
    changeAddress currentHeight subWallets =
  validateDestinations destinations.
Proof.
  intros Hne. rewrite validateTransaction_stages.
  by apply (first_failure_app []).
Qed.

(** A failure of the amount check is the verdict once the three checks
    before it have passed. *)
Lemma validateTransaction_amount_failure destinations mixin fee paymentID
    subWalletsToTakeFrom changeAddress currentHeight subWallets :
  validateDestinations destinations = SUCCESS →
  validateIntegratedAddresses destinations paymentID = SUCCESS →
  validateOurAddresses subWalletsToTakeFrom subWallets = SUCCESS →
  validateAmount destinations fee subWalletsToTakeFrom subWallets
    currentHeight ≠ SUCCESS →
  validateTransaction destinations mixin fee paymentID subWalletsToTakeFrom
    changeAddress currentHeight subWallets =
  validateAmount destinations fee subWalletsToTakeFrom subWallets currentHeight.
Proof.
  intros Hdestinations Hintegrated Hours Hne.
  rewrite validateTransaction_stages. unfold validation_stages.
  rewrite Hdestinations, Hintegrated, Hours.
  by apply (first_failure_app [SUCCESS; SUCCESS; SUCCESS]);
    [repeat constructor |].
Qed.

End Validation.

Section SendEquations.

Context `{!Utilities, !ValidateParameters, !Config, !CryptoUtils}.

(** [draftTransaction] as one equation over the world it starts in. *)
Lemma draftTransaction_eq daemon subWallets a mixin fee paymentID
    subWalletsToTakeFrom changeAddress w :
  draftTransaction daemon subWallets a mixin fee paymentID
    subWalletsToTakeFrom changeAddress w =
  let destinations := array_contents w a in
  let height := getNetworkBlockCount daemon in
  let validated :=
    calls w ++ [CallValidateTransaction destinations mixin fee paymentID
                  subWalletsToTakeFrom changeAddress height] in
  let error :=
    validateTransaction destinations mixin fee paymentID
      subWalletsToTakeFrom changeAddress height subWallets in
  if negb (deepEqual error SUCCESS)
  then (Value (inl error), mkWorld (arrays w) validated)
  else
    match prepare_transfers destinations paymentID with
    | Throw err => (Throw err, mkWorld (arrays w) validated)
    | Value (transfers, paymentID') =>
        let totalAmount := sumBy_amount destinations + fee in
        let selected :=
          validated ++ [CallGetTransactionInputsForAmount totalAmount
                          subWalletsToTakeFrom height] in
        let inputs :=
          (getTransactionInputsForAmount subWallets totalAmount
             subWalletsToTakeFrom height).1 in
        match derive_outputs subWallets inputs with
        | Throw err => (Throw err, mkWorld (arrays w) selected)
        | Value ourOutputs =>
            match getRingParticipants inputs mixin daemon
                    (mkWorld (arrays w) selected) with
            | (Value (inr randomOuts), w') =>
                (Value (inr (mkDraft transfers ourOutputs randomOuts mixin
                               fee paymentID')), w')
            | (Value (inl error), w') => (Value (inl error), w')
            | (Throw err, w') => (Throw err, w')
            end
        end
    end.
Proof.
  unfold draftTransaction. js_unfold. simpl.
  destruct (negb (deepEqual _ SUCCESS)); [done |].
  destruct (prepare_transfers _ _) as [[transfers paymentID']|err]; [|done].
  simpl.
  destruct (getTransactionInputsForAmount _ _ _ _) as [inputs foundMoney].
  simpl. destruct (derive_outputs _ _) as [ourOutputs|err]; [|done].
  destruct (getRingParticipants _ _ _ _) as [[[error|randomOuts]|err] w'];
    done.
Qed.

Lemma preserves_arrays_draftTransaction daemon subWallets a mixin fee
    paymentID subWalletsToTakeFrom changeAddress :
  preserves_arrays
    (draftTransaction daemon subWallets a mixin fee paymentID
       subWalletsToTakeFrom changeAddress).
Proof.
  intros w. rewrite draftTransaction_eq. simpl.
  destruct (negb (deepEqual _ SUCCESS)); [done |].
  destruct (prepare_transfers _ _) as [[transfers paymentID']|err]; [|done].
  destruct (derive_outputs _ _) as [ourOutputs|err]; [|done].
  match goal with
  | |- context [getRingParticipants ?i ?m ?d ?w0] =>
      pose proof (preserves_arrays_getRingParticipants i m d w0) as Hring;
      destruct (getRingParticipants i m d w0) as [[[error|randomOuts]|err] w']
  end; done.
Qed.

Lemma extends_calls_draftTransaction daemon subWallets a mixin fee
    paymentID subWalletsToTakeFrom changeAddress :
  extends_calls
    (draftTransaction daemon subWallets a mixin fee paymentID
       subWalletsToTakeFrom changeAddress).
Proof.
  intros w. rewrite draftTransaction_eq. simpl.
  destruct (negb (deepEqual _ SUCCESS)); [by eexists |].
  destruct (prepare_transfers _ _) as [[transfers paymentID']|err];
    [|by eexists].
  destruct (derive_outputs _ _) as [ourOutputs|err];
    [|rewrite <- app_assoc; by eexists].
  match goal with
  | |- context [getRingParticipants ?i ?m ?d ?w0] =>
      destruct (extends_calls_getRingParticipants i m d w0) as [added Hadded];
      destruct (getRingParticipants i m d w0) as [[[error|randomOuts]|err] w']
  end; simpl in *; rewrite Hadded, <- !app_assoc; by eexists.
Qed.

(** [sendTransactionAdvanced] after its defaults and the push. *)
Lemma sendTransactionAdvanced_eq daemon subWallets a mixin fee paymentID
    subWalletsToTakeFrom changeAddress w :
  sendTransactionAdvanced daemon subWallets a mixin fee paymentID
    subWalletsToTakeFrom changeAddress w =
  match draftTransaction daemon subWallets a (default_mixin daemon mixin)
          (default_fee fee) (default_paymentID paymentID)
          (default_subWalletsToTakeFrom subWallets subWalletsToTakeFrom)
          (default_changeAddress subWallets changeAddress)
          (add_node_fee daemon a w).2 with
  | (Value (inr draft), w1) =>
      match buildTransaction draft w1 with
      | (Value (inr tx), w2) => relayTransaction daemon tx w2
      | (Value (inl error), w2) => (Value (inl error), w2)
      | (Throw err, w2) => (Throw err, w2)
      end
  | (Value (inl error), w1) => (Value (inl error), w1)
  | (Throw err, w1) => (Throw err, w1)
  end.
Proof.
  unfold sendTransactionAdvanced.
  destruct (add_node_fee_spec daemon a w) as (w0 & Hpush & _).
  unfold mbind at 1. unfold Js_bind. rewrite Hpush. simpl.
  unfold mbind at 1. unfold Js_bind.
  destruct (draftTransaction _ _ _ _ _ _ _ _ _) as [[[error|draft]|err] w1];
    try done.
  unfold unless_error. unfold mbind at 1. unfold Js_bind.
  by destruct (buildTransaction draft w1) as [[[error|tx]|err] w2].
Qed.

Lemma buildTransaction_eq draft w :
  buildTransaction draft w =
  let built :=
    calls w ++ [CallCreateTransaction (transfers draft) (ourOutputs draft)
                  (randomOuts draft) (draftMixin draft) (draftFee draft)
                  (draftPaymentID draft)] in
  match createTransaction (transfers draft) (ourOutputs draft)
          (randomOuts draft) (draftMixin draft) (draftFee draft)
          (draftPaymentID draft) with
  | Value tx => (Value (inr tx), mkWorld (arrays w) built)
  | Throw err =>
      match toString err with
      | Value text =>
          (Value (inl (mkWalletError WalletErrorCode.UNKNOWN_ERROR text)),
           mkWorld (arrays w)
             (built ++ [CallLog ("Failed to create transaction: " +:+ text)]))
      | Throw raised => (Throw raised, mkWorld (arrays w) built)
      end
  end.
Proof.
  unfold buildTransaction. js_unfold. simpl.
  destruct (createTransaction _ _ _ _ _ _) as [tx|err]; [done |].
  by destruct (toString err).
Qed.

Lemma relayTransaction_eq daemon tx w :
  relayTransaction daemon tx w =
  let relayed :=
    mkWorld (arrays w)
      (calls w ++ [CallSendTransaction (CreatedTransaction.rawTransaction tx)]) in
  match sendTransaction daemon (CreatedTransaction.rawTransaction tx) with
  | Value true => (Value (inr (CreatedTransaction.hash tx)), relayed)
  | Value false =>
      (Value (inl (newWalletError WalletErrorCode.DAEMON_ERROR)), relayed)
  | Throw err =>
      (Value (inl (newWalletError WalletErrorCode.DAEMON_OFFLINE)), relayed)
  end.
Proof.
  unfold relayTransaction. js_unfold. simpl.
  by destruct (sendTransaction _ _) as [[]|].
Qed.

(** After the push nothing touches the arrays. *)
Lemma sendTransactionAdvanced_arrays daemon subWallets a mixin fee paymentID
    subWalletsToTakeFrom changeAddress w :
  arrays (sendTransactionAdvanced daemon subWallets a mixin fee paymentID
            subWalletsToTakeFrom changeAddress w).2 =
  arrays (add_node_fee daemon a w).2.
Proof.
  rewrite sendTransactionAdvanced_eq.
  match goal with
  | |- context [draftTransaction ?d ?s ?a ?m ?f ?p ?t ?c ?w0] =>
      pose proof (preserves_arrays_draftTransaction d s a m f p t c w0) as Hd;
      destruct (draftTransaction d s a m f p t c w0) as [[[error|draft]|err] w1]
  end; simpl in *; try done.
  pose proof (preserves_arrays_buildTransaction draft w1) as Hb.
  destruct (buildTransaction draft w1) as [[[error|tx]|err] w2];
    simpl in *; try congruence.
  rewrite preserves_arrays_relayTransaction. congruence.
Qed.

End SendEquations.

Section SendCalls.

Context `{!Utilities, !ValidateParameters, !Config, !CryptoUtils}.

Lemma network_calls_app log log' :
  network_calls (log ++ log') = network_calls log ++ network_calls log'.
Proof. unfold network_calls. apply filter_app. Qed.

(** The array of the request after a call, whatever its outcome. *)
Lemma sendTransactionAdvanced_array daemon subWallets a mixin fee paymentID
    subWalletsToTakeFrom changeAddress w :
  array_contents
    (sendTransactionAdvanced daemon subWallets a mixin fee paymentID
       subWalletsToTakeFrom changeAddress w).2 a =
  with_node_fee daemon (array_contents w a).
Proof.
  unfold array_contents at 1. rewrite sendTransactionAdvanced_arrays.
  destruct (add_node_fee_spec daemon a w) as (w0 & -> & Harray & _).
  exact Harray.
Qed.

(** The log of [draftTransaction] starts with the validation, and goes
    on with the selection of inputs once the validation and the
    decoding of the destinations have passed. *)
Lemma draftTransaction_calls daemon subWallets a mixin fee paymentID
    subWalletsToTakeFrom changeAddress w :
  let destinations := array_contents w a in
  let height := getNetworkBlockCount daemon in
  let validation :=
    CallValidateTransaction destinations mixin fee paymentID
      subWalletsToTakeFrom changeAddress height in
  let w' :=
    (draftTransaction daemon subWallets a mixin fee paymentID
       subWalletsToTakeFrom changeAddress w).2 in
  (∃ later, calls w' = calls w ++ validation :: later) ∧
  (validateTransaction destinations mixin fee paymentID subWalletsToTakeFrom
     changeAddress height subWallets = SUCCESS →
   is_Value (prepare_transfers destinations paymentID) →
   ∃ later,
     calls w' =
     calls w ++ validation ::
       CallGetTransactionInputsForAmount (sumBy_amount destinations + fee)
         subWalletsToTakeFrom height :: later).
Proof.
  intros destinations height validation w'. subst w'.
  rewrite draftTransaction_eq. fold destinations height validation. simpl.
  destruct (negb (deepEqual _ SUCCESS)) eqn:Hvalid.
  { split; [by exists [] |]. intros Hsuccess _.
    apply deepEqual_SUCCESS in Hsuccess. congruence. }
  destruct (prepare_transfers _ _) as [[transfers paymentID']|err].
  2:{ split; [by exists [] |]. by intros _ []. }
  destruct (derive_outputs _ _) as [ourOutputs|err].
  2:{ simpl. rewrite <- app_assoc. simpl. split; by eexists. }
  match goal with
  | |- context [getRingParticipants ?i ?m ?d ?w0] =>
      destruct (extends_calls_getRingParticipants i m d w0) as [added Hadded];
      destruct (getRingParticipants i m d w0) as [[[error|randomOuts]|err] w1]
  end; simpl in *; rewrite Hadded, <- !app_assoc; simpl; split; by eexists.
Qed.

(** Building and relaying only add to the log of the draft. *)
Lemma sendTransactionAdvanced_calls daemon subWallets a mixin fee paymentID
    subWalletsToTakeFrom changeAddress w :
  ∃ later,
    calls (sendTransactionAdvanced daemon subWallets a mixin fee paymentID
             subWalletsToTakeFrom changeAddress w).2 =
    calls (draftTransaction daemon subWallets a (default_mixin daemon mixin)
             (default_fee fee) (default_paymentID paymentID)
             (default_subWalletsToTakeFrom subWallets subWalletsToTakeFrom)
             (default_changeAddress subWallets changeAddress)
             (add_node_fee daemon a w).2).2 ++ later.
Proof.
  rewrite sendTransactionAdvanced_eq.
  destruct (draftTransaction _ _ _ _ _ _ _ _ _) as [[[error|draft]|err] w1];
    simpl; try (exists []; by rewrite app_nil_r).
  destruct (extends_calls_buildTransaction draft w1) as [added Hadded].
  destruct (buildTransaction draft w1) as [[[error|tx]|err] w2];
    simpl in *; try by exists added.
  destruct (extends_calls_relayTransaction daemon tx w2) as [added' Hadded'].
  exists (added ++ added'). by rewrite Hadded', Hadded, app_assoc.
Qed.

(** A validation that fails on the array as it is after the push ends
    the send with the validation's error. *)
Lemma sendTransactionAdvanced_invalid daemon subWallets a mixin fee paymentID
    subWalletsToTakeFrom changeAddress w :
  let verdict :=
    validateTransaction (with_node_fee daemon (array_contents w a))
      (default_mixin daemon mixin) (default_fee fee)
      (default_paymentID paymentID)
      (default_subWalletsToTakeFrom subWallets subWalletsToTakeFrom)
      (default_changeAddress subWallets changeAddress)
      (getNetworkBlockCount daemon) subWallets in
  verdict ≠ SUCCESS →
  (sendTransactionAdvanced daemon subWallets a mixin fee paymentID
     subWalletsToTakeFrom changeAddress w).1 = Value (inl verdict).
Proof.
  intros verdict Hverdict.
  rewrite sendTransactionAdvanced_eq, draftTransaction_eq.
  destruct (add_node_fee_spec daemon a w) as (w0 & -> & Harray & _).
  simpl. rewrite Harray. fold verdict.
  destruct (negb (deepEqual verdict SUCCESS)) eqn:Hvalid; [done |].
  by apply deepEqual_SUCCESS in Hvalid.
Qed.

End SendCalls.

(** ** The send path *)

Section SendClaims.

Context `{!Utilities, !ValidateParameters, !Config, !CryptoUtils}.

Variables (daemon : IDaemon) (subWallets : SubWallets) (a : loc).
Variables (mixin fee : option Z) (paymentID : option string).
Variables (subWalletsToTakeFrom : option (list string)).
Variable changeAddress : option string.

Let mixin' := default_mixin daemon mixin.
Let fee' := default_fee fee.
Let paymentID' := default_paymentID paymentID.
Let takeFrom' := default_subWalletsToTakeFrom subWallets subWalletsToTakeFrom.
Let changeAddress' := default_changeAddress subWallets changeAddress.
Let height := getNetworkBlockCount daemon.
Let send :=
  sendTransactionAdvanced daemon subWallets a mixin fee paymentID
    subWalletsToTakeFrom changeAddress.

(** C6: the validation returns the error of the first stage that
    fails, the stages taken in the order destinations, integrated
    addresses, funding addresses, amount, mixin, payment ID, change
    address, and [SUCCESS] if none fails; the stages are functions of
    their arguments, so running them again gives the same answer; and a
    failed validation ends the send with that error and no network
    call. *)
Theorem validation_order_before_network w :
  let destinations := with_node_fee daemon (array_contents w a) in
  let error :=
    validateTransaction destinations mixin' fee' paymentID' takeFrom'
      changeAddress' height subWallets in
  error =
    first_failure
      (validation_stages destinations mixin' fee' paymentID' takeFrom'
         changeAddress' height subWallets) ∧
  (error ≠ SUCCESS →
   (send w).1 = Value (inl error) ∧
   network_calls (calls (send w).2) = network_calls (calls w)).
Proof.
  intros destinations error. split; [apply validateTransaction_stages |].
  intros Herror. subst send. simpl.
  rewrite sendTransactionAdvanced_eq, draftTransaction_eq.
  destruct (add_node_fee_spec daemon a w) as (w0 & -> & Harray & Hcalls & _).
  simpl. rewrite Harray. fold destinations mixin' fee' paymentID' takeFrom'
    changeAddress' height error.
  destruct (negb (deepEqual error SUCCESS)) eqn:Hvalid.
  - simpl. split; [done |].
    by rewrite Hcalls, network_calls_app, app_nil_r.
  - by apply deepEqual_SUCCESS in Hvalid.
Qed.

(** C7: with a non-zero node fee the validator is called on the
    requested destinations followed by the node-fee destination, and
    its verdict on that list decides the send: a verdict other than
    [SUCCESS] is what the send returns, be it the verdict of the
    destination check on that list or, once the checks before it have
    passed, of the amount check on that list.  When the validation has
    passed, the total for which inputs are selected is the sum of the
    requested amounts plus the network fee plus the node fee. *)
Theorem node_fee_validated_and_totalled w feeAddress feeAmount :
  nodeFee daemon = (feeAddress, feeAmount) →
  feeAmount ≠ 0 →
  let requested := array_contents w a in
  let destinations := requested ++ [(feeAddress, feeAmount)] in
  let validation :=
    CallValidateTransaction destinations mixin' fee' paymentID' takeFrom'
      changeAddress' height in
  let verdict :=
    validateTransaction destinations mixin' fee' paymentID' takeFrom'
      changeAddress' height subWallets in
  (∃ later, calls (send w).2 = calls w ++ validation :: later) ∧
  (verdict ≠ SUCCESS → (send w).1 = Value (inl verdict)) ∧
  (validateDestinations destinations ≠ SUCCESS →
   (send w).1 = Value (inl (validateDestinations destinations))) ∧
  (validateDestinations destinations = SUCCESS →
   validateIntegratedAddresses destinations paymentID' = SUCCESS →
   validateOurAddresses takeFrom' subWallets = SUCCESS →
   validateAmount destinations fee' takeFrom' subWallets height ≠ SUCCESS →
   (send w).1 =
     Value (inl (validateAmount destinations fee' takeFrom' subWallets
                   height))) ∧
  (verdict = SUCCESS →
   is_Value (prepare_transfers destinations paymentID') →
   ∃ later,
     calls (send w).2 =
     calls w ++ validation ::
       CallGetTransactionInputsForAmount
         (sumBy_amount requested + fee' + feeAmount) takeFrom' height ::
       later).
Proof.
  intros HnodeFee Hfee requested destinations validation verdict.
  assert (with_node_fee daemon (array_contents w a) = destinations) as Hshaped.
  { unfold with_node_fee. rewrite HnodeFee. simpl.
    by rewrite bool_decide_eq_true_2. }
  assert (verdict ≠ SUCCESS → (send w).1 = Value (inl verdict)) as Hinvalid.
  { intros Hverdict. subst send verdict. simpl.
    pose proof (sendTransactionAdvanced_invalid daemon subWallets a mixin fee
                  paymentID subWalletsToTakeFrom changeAddress w) as Hsend.
    simpl in Hsend. rewrite Hshaped in Hsend. by apply Hsend. }
  split_and!.
  - subst send.
    destruct (sendTransactionAdvanced_calls daemon subWallets a mixin fee
                paymentID subWalletsToTakeFrom changeAddress w)
      as [later' ->].
    destruct (add_node_fee_spec daemon a w) as (w0 & -> & Harray & Hcalls & _).
    simpl. fold mixin' fee' paymentID' takeFrom' changeAddress'.
    destruct (draftTransaction_calls daemon subWallets a mixin' fee' paymentID'
                takeFrom' changeAddress' w0) as [[later Hfirst] _].
    rewrite Harray, Hshaped, Hcalls in Hfirst. rewrite Hfirst.
    exists (later ++ later'). by rewrite <- app_assoc.
  - exact Hinvalid.
  - intros Hne.
    rewrite <- (validateTransaction_destinations_failure destinations mixin'
                  fee' paymentID' takeFrom' changeAddress' height subWallets)
      by done.
    apply Hinvalid. subst verdict.
    by rewrite validateTransaction_destinations_failure.
  - intros Hdestinations Hintegrated Hours Hne.
    rewrite <- (validateTransaction_amount_failure destinations mixin'
                  fee' paymentID' takeFrom' changeAddress' height subWallets)
      by done.
    apply Hinvalid. subst verdict.
    by rewrite validateTransaction_amount_failure.
  - intros Hvalid Hdecoded. subst send.
    destruct (sendTransactionAdvanced_calls daemon subWallets a mixin fee
                paymentID subWalletsToTakeFrom changeAddress w)
      as [later' ->].
    destruct (add_node_fee_spec daemon a w) as (w0 & -> & Harray & Hcalls & _).
    simpl. fold mixin' fee' paymentID' takeFrom' changeAddress'.
    destruct (draftTransaction_calls daemon subWallets a mixin' fee' paymentID'
                takeFrom' changeAddress' w0) as [_ Hsecond].
    rewrite Harray, Hshaped, Hcalls in Hsecond.
    destruct (Hsecond Hvalid Hdecoded) as [later ->].
    exists (later ++ later'). rewrite <- app_assoc. simpl.
    unfold destinations. rewrite sumBy_amount_push.
    by replace (sumBy_amount requested + feeAmount + fee')
      with (sumBy_amount requested + fee' + feeAmount) by lia.
Qed.

(** C8: once a transaction is built, the outcome is decided by the
    daemon's answer alone: the built hash when it answers true,
    [DAEMON_ERROR] when it answers false, [DAEMON_OFFLINE] when the
    request throws; the two errors differ. *)
Theorem relay_outcomes w draft w1 tx w2 :
  draftTransaction daemon subWallets a mixin' fee' paymentID' takeFrom'
    changeAddress' (add_node_fee daemon a w).2 = (Value (inr draft), w1) →
  buildTransaction draft w1 = (Value (inr tx), w2) →
  (send w).1 =
    match sendTransaction daemon (CreatedTransaction.rawTransaction tx) with
    | Value true => Value (inr (CreatedTransaction.hash tx))
    | Value false => Value (inl (newWalletError WalletErrorCode.DAEMON_ERROR))
    | Throw err => Value (inl (newWalletError WalletErrorCode.DAEMON_OFFLINE))
    end ∧
  newWalletError WalletErrorCode.DAEMON_ERROR ≠
    newWalletError WalletErrorCode.DAEMON_OFFLINE.
Proof.
  intros Hdraft Hbuild. split; [|done]. subst send. simpl.
  rewrite sendTransactionAdvanced_eq.
  fold mixin' fee' paymentID' takeFrom' changeAddress'.
  rewrite Hdraft, Hbuild, relayTransaction_eq. simpl.
  by destruct (sendTransaction _ _) as [[]|].
Qed.

(** C9 as amended: when [createTransaction] throws a value that
    [toString()] renders as a text, the send returns (it does not throw)
    an [UNKNOWN_ERROR] whose message is that text; the failure is logged
    with the same text and nothing is relayed. *)
Theorem build_failure_is_returned w draft w1 err text :
  draftTransaction daemon subWallets a mixin' fee' paymentID' takeFrom'
    changeAddress' (add_node_fee daemon a w).2 = (Value (inr draft), w1) →
  createTransaction (transfers draft) (ourOutputs draft) (randomOuts draft)
    (draftMixin draft) (draftFee draft) (draftPaymentID draft) = Throw err →
  toString err = Value text →
  (send w).1 =
    Value (inl (mkWalletError WalletErrorCode.UNKNOWN_ERROR text)) ∧
  calls (send w).2 =
    calls w1 ++
      [CallCreateTransaction (transfers draft) (ourOutputs draft)
         (randomOuts draft) (draftMixin draft) (draftFee draft)
         (draftPaymentID draft);
       CallLog ("Failed to create transaction: " +:+ text)].
Proof.
  intros Hdraft Hthrow Htext. subst send. simpl.
  rewrite sendTransactionAdvanced_eq.
  fold mixin' fee' paymentID' takeFrom' changeAddress'.
  rewrite Hdraft, buildTransaction_eq, Hthrow, Htext. simpl.
  by rewrite <- app_assoc.
Qed.

(** C10: whatever the outcome, a non-zero node fee leaves the caller's
    array with the node-fee destination appended; a second call on the
    same array, with any other arguments, appends it again; a zero node
    fee leaves the array as it was. *)
Theorem node_fee_pushed_to_callers_array w
    subWallets2 mixin2 fee2 paymentID2 takeFrom2 changeAddress2 :
  let w1 := (send w).2 in
  let w2 :=
    (sendTransactionAdvanced daemon subWallets2 a mixin2 fee2 paymentID2
       takeFrom2 changeAddress2 w1).2 in
  ((nodeFee daemon).2 ≠ 0 →
   array_contents w1 a = array_contents w a ++ [nodeFee daemon] ∧
   array_contents w2 a =
     array_contents w a ++ [nodeFee daemon; nodeFee daemon]) ∧
  ((nodeFee daemon).2 = 0 → array_contents w1 a = array_contents w a).
Proof.
  intros w1 w2. subst w1 w2 send. simpl.
  rewrite !sendTransactionAdvanced_array. unfold with_node_fee. split.
  - intros Hfee. rewrite !bool_decide_eq_true_2 by done.
    split; [done |]. by rewrite <- app_assoc.
  - intros Hfee. by rewrite bool_decide_eq_false_2 by (by intros []).
Qed.

End SendClaims.

(** A send of 100 to one destination through a daemon that asks a node
    fee of 5, with validators that refuse a mixin above 3: a mixin of 5
    is refused by the fifth stage, before any network call. *)
Lemma validation_order_before_network_witness :
  let send :=
    @sendTransactionAdvanced Fixture.utilities (Fixture.validators 3)
      Fixture.config (Fixture.crypto (Value Fixture.tx))
      (Fixture.daemon ("node", 5) (Value []) (Value true))
      (Fixture.subWallets []) Fixture.array (Some 5) None None None None in
  let w := Fixture.world [("dest", 100)] in
  newWalletError (WalletErrorCode.OTHER 1) ≠ SUCCESS ∧
  (send w).1 = Value (inl (newWalletError (WalletErrorCode.OTHER 1))) ∧
  network_calls (calls (send w).2) = network_calls (calls w).
Proof.
  intros send w. split; [discriminate |].
  apply (@validation_order_before_network Fixture.utilities
           (Fixture.validators 3) Fixture.config
           (Fixture.crypto (Value Fixture.tx))
           (Fixture.daemon ("node", 5) (Value []) (Value true))
           (Fixture.subWallets []) Fixture.array (Some 5) None None None None
           w).
  discriminate.
Defined.

(** A send of 100 with a fee of 10 through a daemon that asks a node fee
    of 5.  With validators that accept it, inputs are selected for 115.
    With a balance of 112, enough for 100 + 10 only, the amount check on
    the list with the node fee refuses the send. *)
Lemma node_fee_validated_and_totalled_witness :
  let send validators :=
    @sendTransactionAdvanced Fixture.utilities validators
      Fixture.config (Fixture.crypto (Value Fixture.tx))
      (Fixture.daemon ("node", 5) (Value []) (Value true))
      (Fixture.subWallets []) Fixture.array (Some 0) (Some 10) None None None in
  let w := Fixture.world [("dest", 100)] in
  let validation :=
    CallValidateTransaction [("dest", 100); ("node", 5)] 0 10 EmptyString
      ["ours"] "ours" 1000 in
  (∃ later,
     calls (send (Fixture.validators 3) w).2 = calls w ++ validation :: later) ∧
  (∃ later,
     calls (send (Fixture.validators 3) w).2 =
     calls w ++ validation ::
       CallGetTransactionInputsForAmount (100 + 10 + 5) ["ours"] 1000 ::
       later) ∧
  (send (Fixture.validators_with_balance 112) w).1 =
    Value (inl (newWalletError (WalletErrorCode.OTHER 2))).
Proof.
  intros send w validation.
  destruct (@node_fee_validated_and_totalled Fixture.utilities
              (Fixture.validators 3) Fixture.config
              (Fixture.crypto (Value Fixture.tx))
              (Fixture.daemon ("node", 5) (Value []) (Value true))
              (Fixture.subWallets []) Fixture.array (Some 0) (Some 10) None
              None None w "node" 5 eq_refl ltac:(lia))
    as (Hfirst & _ & _ & _ & Htotal).
  destruct (@node_fee_validated_and_totalled Fixture.utilities
              (Fixture.validators_with_balance 112) Fixture.config
              (Fixture.crypto (Value Fixture.tx))
              (Fixture.daemon ("node", 5) (Value []) (Value true))
              (Fixture.subWallets []) Fixture.array (Some 0) (Some 10) None
              None None w "node" 5 eq_refl ltac:(lia))
    as (_ & _ & _ & Hamount & _).
  split_and!.
  - exact Hfirst.
  - apply Htotal; [reflexivity | exact I].
  - apply Hamount; [reflexivity | reflexivity | reflexivity | discriminate].
Defined.

Lemma relay_outcomes_witness :
  (@sendTransactionAdvanced Fixture.utilities (Fixture.validators 3)
     Fixture.config (Fixture.crypto (Value Fixture.tx))
     (Fixture.daemon ("node", 5) (Value []) (Value true))
     (Fixture.subWallets []) Fixture.array (Some 0) None None None None
     (Fixture.world [("dest", 100)])).1 = Value (inr "hash") ∧
  newWalletError WalletErrorCode.DAEMON_ERROR ≠
    newWalletError WalletErrorCode.DAEMON_OFFLINE.
Proof.
  eapply (@relay_outcomes Fixture.utilities (Fixture.validators 3)
            Fixture.config (Fixture.crypto (Value Fixture.tx))
            (Fixture.daemon ("node", 5) (Value []) (Value true))
            (Fixture.subWallets []) Fixture.array (Some 0) None None None None
            (Fixture.world [("dest", 100)]) _ _ Fixture.tx _);
    lazy; reflexivity.
Defined.

Lemma build_failure_is_returned_witness :
  let send :=
    @sendTransactionAdvanced Fixture.utilities (Fixture.validators 3)
      Fixture.config (Fixture.crypto (Throw "Error: bad key"))
      (Fixture.daemon ("node", 5) (Value []) (Value true))
      (Fixture.subWallets []) Fixture.array (Some 0) None None None None in
  let w := Fixture.world [("dest", 100)] in
  (send w).1 =
    Value (inl (mkWalletError WalletErrorCode.UNKNOWN_ERROR "Error: bad key")) ∧
  ∃ draft w1,
    calls (send w).2 =
      calls w1 ++
        [CallCreateTransaction (transfers draft) (ourOutputs draft)
           (randomOuts draft) (draftMixin draft) (draftFee draft)
           (draftPaymentID draft);
         CallLog "Failed to create transaction: Error: bad key"].
Proof.
  intros send w.
  edestruct (@build_failure_is_returned Fixture.utilities
               (Fixture.validators 3) Fixture.config
               (Fixture.crypto (Throw "Error: bad key"))
               (Fixture.daemon ("node", 5) (Value []) (Value true))
               (Fixture.subWallets []) Fixture.array (Some 0) None None None
               None w) as [Hreturned Hcalls];
    [lazy; reflexivity | reflexivity | reflexivity |].
  split; [exact Hreturned |]. eexists _, _. exact Hcalls.
Defined.

(** C9 as stated fails: when [createTransaction] throws [undefined], on
    which [toString()] raises a [TypeError], the handler of the build
    throws in turn and the send throws that [TypeError]; it returns no
    [WalletError]. *)
Lemma build_failure_counterexample :
  (@sendTransactionAdvanced Fixture.utilities (Fixture.validators 3)
     Fixture.config
     (Fixture.crypto
        (Throw (Unprintable
                  "TypeError: Cannot read properties of undefined")))
     (Fixture.daemon ("node", 5) (Value []) (Value true))
     (Fixture.subWallets []) Fixture.array (Some 0) None None None None
     (Fixture.world [("dest", 100)])).1 =
    Throw "TypeError: Cannot read properties of undefined".
Proof. reflexivity. Qed.

Lemma node_fee_pushed_to_callers_array_witness :
  let send :=
    @sendTransactionAdvanced Fixture.utilities (Fixture.validators 3)
      Fixture.config (Fixture.crypto (Value Fixture.tx))
      (Fixture.daemon ("node", 5) (Value []) (Value true))
      (Fixture.subWallets []) Fixture.array (Some 0) None None None None in
  let w := Fixture.world [("dest", 100)] in
  array_contents (send w).2 Fixture.array = [("dest", 100); ("node", 5)] ∧
  array_contents (send (send w).2).2 Fixture.array =
    [("dest", 100); ("node", 5); ("node", 5)].
Proof.
  intros send w.
  apply (@node_fee_pushed_to_callers_array Fixture.utilities
           (Fixture.validators 3) Fixture.config
           (Fixture.crypto (Value Fixture.tx))
           (Fixture.daemon ("node", 5) (Value []) (Value true))
           (Fixture.subWallets []) Fixture.array (Some 0) None None None None
           w (Fixture.subWallets []) (Some 0) None None None None).
  simpl. lia.
Defined.

(** * Further properties of the code *)

(** ** getRingParticipants: requests, failures and successes *)

Section RingParticipantsMore.

Context `{!Utilities}.

Lemma find_outputs_present outs amount outputs :
  (amount, outputs) ∈ outs → is_Some (find_outputs outs amount).
Proof.
  unfold find_outputs. induction outs as [|[outAmount outputs'] outs IH];
    intros Hin.
  - by apply elem_of_nil in Hin.
  - simpl. case_bool_decide; [by eexists |].
    apply elem_of_cons in Hin as [[= -> _]|Hin]; [done | by apply IH].
Qed.

Lemma find_outputs_absent outs amount :
  (∀ outputs, (amount, outputs) ∉ outs) → find_outputs outs amount = None.
Proof.
  intros Habsent. destruct (find_outputs outs amount) as [[outAmount outputs]|]
    eqn:Hfind; [|done].
  apply find_outputs_Some in Hfind as [Heq Hin]. simpl in Heq. subst.
  by apply Habsent in Hin.
Qed.

Lemma check_amounts_missing outs mixin requestedOuts present amount rest :
  present = [] ∨ mixin ≤ 2 →
  Forall (λ a, ∃ outputs, (a, outputs) ∈ outs) present →
  (∀ outputs, (amount, outputs) ∉ outs) →
  check_amounts outs mixin requestedOuts (present ++ amount :: rest) =
    Some (mkWalletError WalletErrorCode.NOT_ENOUGH_FAKE_OUTPUTS
            (no_outputs_message amount)).
Proof.
  intros Hmixin Hpresent Habsent.
  induction Hpresent as [|a present [outputs Hin] _ IH]; simpl.
  - by rewrite find_outputs_absent.
  - destruct Hmixin as [?|Hmixin]; [done |].
    destruct (find_outputs_present _ _ _ Hin) as [bucket ->].
    unfold tuple_length. destruct (Z.ltb_spec 2 mixin); [lia |].
    apply IH. by right.
Qed.

Lemma check_amounts_code outs mixin requestedOuts amounts error :
  check_amounts outs mixin requestedOuts amounts = Some error →
  errorCode error = WalletErrorCode.NOT_ENOUGH_FAKE_OUTPUTS.
Proof.
  induction amounts as [|amount amounts IH]; simpl; [done |].
  destruct (find_outputs outs amount); [|by intros [= <-]].
  destruct (_ <? _); [by intros [= <-] | done].
Qed.

Lemma collect_outputs_code mixin requestedOuts outs randomOuts error :
  collect_outputs mixin requestedOuts outs randomOuts = inl error →
  errorCode error = WalletErrorCode.NOT_ENOUGH_FAKE_OUTPUTS.
Proof.
  revert randomOuts. induction outs as [|[amount outputs] outs IH];
    intros randomOuts; simpl; [done |].
  destruct (_ <? _); [by intros [= <-] | apply IH].
Qed.

(** X1: when the answer has at least one bucket, a requested amount
    without a bucket is reported by name (an answer with no bucket gives
    [DAEMON_OFFLINE] instead).  The error is that of the first such
    amount in the order of the inputs; it comes before the comparison of
    the numbers of buckets and inputs.  When amounts with a bucket
    precede it, [mixin] must be at most 2 for the loop to get past
    them. *)
Theorem getRingParticipants_missing_amount inputs mixin daemon w outs
    present amount rest :
  mixin ≠ 0 →
  getRandomOutputsByAmount daemon (input_amounts inputs) mixin = Value outs →
  outs ≠ [] →
  input_amounts inputs = present ++ amount :: rest →
  present = [] ∨ mixin ≤ 2 →
  Forall (λ a, ∃ outputs, (a, outputs) ∈ outs) present →
  (∀ outputs, (amount, outputs) ∉ outs) →
  (getRingParticipants inputs mixin daemon w).1 =
    Value (inl (mkWalletError WalletErrorCode.NOT_ENOUGH_FAKE_OUTPUTS
                  (no_outputs_message amount))).
Proof.
  intros Hmixin Hanswer Hne Hamounts Hfirst Hpresent Habsent.
  rewrite getRingParticipants_nonzero by done. simpl.
  rewrite Hanswer, Hamounts.
  rewrite bool_decide_eq_false_2 by (destruct outs; [done | simpl; lia]).
  by rewrite check_amounts_missing.
Qed.

(** X2: with a non-zero [mixin] the daemon is asked exactly once, for
    [mixin] outputs (not [mixin + 1]) of the inputs' amounts in the order
    of the inputs, duplicates included; whatever the answer, nothing else
    is called and no array is touched. *)
Theorem getRingParticipants_one_request inputs mixin daemon w :
  mixin ≠ 0 →
  (getRingParticipants inputs mixin daemon w).2 =
    mkWorld (arrays w)
      (calls w ++ [CallGetRandomOutputsByAmount (input_amounts inputs) mixin]).
Proof.
  intros Hmixin. rewrite getRingParticipants_nonzero by done. simpl.
  destruct (getRandomOutputsByAmount _ _ _) as [outs|err]; [|done].
  case_bool_decide; [done |].
  destruct (check_amounts _ _ _ _); [done |]. by case_bool_decide.
Qed.

(** X3: with a [mixin] above 2 the resolution never succeeds, whatever
    the inputs and whatever the daemon answers: the first loop compares
    the length of a found tuple, 2, with [mixin]. *)
Theorem getRingParticipants_large_mixin_never_succeeds inputs mixin daemon w sets :
  2 < mixin →
  (getRingParticipants inputs mixin daemon w).1 ≠ Value (inr sets).
Proof.
  intros Hmixin. rewrite getRingParticipants_nonzero by lia. simpl.
  destruct (getRandomOutputsByAmount _ _ _) as [outs|err]; [|done].
  case_bool_decide as Hempty; [done |].
  destruct (check_amounts _ _ _ _) eqn:Hcheck; [done |].
  case_bool_decide as Hlen; [done |].
  apply check_amounts_None in Hcheck as [Hnil|[? _]]; [|lia].
  rewrite Hnil in Hlen. simpl in Hlen. lia.
Qed.

(** X4: with at least one input and a [mixin] of at most 2 and not 0,
    an answer that has as many buckets as there are inputs, a bucket for
    every input's amount and at least [mixin] entries in every bucket
    makes the resolution succeed; the result is the answer's buckets,
    reshaped, in the answer's order.  (Without inputs it never succeeds.) *)
Theorem getRingParticipants_succeeds inputs mixin daemon w outs :
  mixin ≠ 0 →
  mixin ≤ 2 →
  getRandomOutputsByAmount daemon (input_amounts inputs) mixin = Value outs →
  inputs ≠ [] →
  length outs = length inputs →
  Forall (λ a, ∃ outputs, (a, outputs) ∈ outs) (input_amounts inputs) →
  Forall (λ bucket : Bucket, mixin ≤ Z.of_nat (length bucket.2)) outs →
  (getRingParticipants inputs mixin daemon w).1 =
    Value (inr (map (λ bucket, reshape bucket.2) outs)).
Proof.
  intros Hmixin Hsmall Hanswer Hinputs Hlen Hpresent Hsufficient.
  rewrite getRingParticipants_nonzero by done. simpl. rewrite Hanswer.
  rewrite bool_decide_eq_false_2
    by (destruct inputs, outs; simpl in *; [done | done | done | lia]).
  rewrite (proj2 (check_amounts_None _ _ _ _)) by (right; done).
  rewrite bool_decide_eq_false_2.
  - simpl. f_equal.
    by apply (proj2 (collect_outputs_inr mixin (mixin + 1) outs [] _)).
  - intros Hne. apply Hne. f_equal. unfold input_amounts.
    rewrite length_map. exact Hlen.
Qed.

(** X5: without inputs and with a non-zero [mixin] the resolution never
    succeeds: an empty answer gives [DAEMON_OFFLINE], any other answer
    the [NOT_ENOUGH_FAKE_OUTPUTS] without message, and a failed request
    throws. *)
Theorem getRingParticipants_no_inputs mixin daemon w :
  mixin ≠ 0 →
  (getRingParticipants [] mixin daemon w).1 =
    match getRandomOutputsByAmount daemon [] mixin with
    | Value [] => Value (inl (newWalletError WalletErrorCode.DAEMON_OFFLINE))
    | Value (_ :: _) =>
        Value (inl (newWalletError WalletErrorCode.NOT_ENOUGH_FAKE_OUTPUTS))
    | Throw err => Throw err
    end.
Proof.
  intros Hmixin. rewrite getRingParticipants_nonzero by done. simpl.
  by destruct (getRandomOutputsByAmount _ _ _) as [[|bucket outs]|err].
Qed.

(** X6: the only errors the resolution returns are [DAEMON_OFFLINE],
    exactly when the answer has no bucket, and, for an answer with
    buckets, [NOT_ENOUGH_FAKE_OUTPUTS]. *)
Theorem getRingParticipants_error_codes inputs mixin daemon w error :
  (getRingParticipants inputs mixin daemon w).1 = Value (inl error) →
  mixin ≠ 0 ∧
  ((getRandomOutputsByAmount daemon (input_amounts inputs) mixin = Value [] ∧
    error = newWalletError WalletErrorCode.DAEMON_OFFLINE) ∨
   (∃ bucket outs,
      getRandomOutputsByAmount daemon (input_amounts inputs) mixin =
        Value (bucket :: outs) ∧
      errorCode error = WalletErrorCode.NOT_ENOUGH_FAKE_OUTPUTS)).
Proof.
  destruct (decide (mixin = 0)) as [->|Hmixin]; [done |].
  rewrite getRingParticipants_nonzero by done. simpl.
  destruct (getRandomOutputsByAmount _ _ _) as [[|bucket outs]|err];
    [intros [= <-]; split; [done | by left] | | done].
  rewrite bool_decide_eq_false_2 by (simpl; lia).
  intros Herror. split; [done |]. right. exists bucket, outs. split; [done |].
  destruct (check_amounts _ _ _ _) eqn:Hcheck.
  - injection Herror as <-. by eapply check_amounts_code.
  - case_bool_decide; [by injection Herror as <- |].
    injection Herror as Herror.
    exact (collect_outputs_code mixin (mixin + 1) (bucket :: outs) [] error
             Herror).
Qed.

(** X7: reshaping loses nothing: reading the index and the key back from
    the reshaped entries gives the bucket's entries, in their order. *)
Theorem reshape_round_trip outputs :
  map (λ out, (RandomOutput.globalIndex out, RandomOutput.key out))
    (reshape outputs) = outputs.
Proof.
  unfold reshape. induction outputs as [|[index key] outputs IH]; simpl;
    [done | by rewrite IH].
Qed.

End RingParticipantsMore.

(** The specification's example of a missing bucket: one input of
    amount 50, [mixin = 2], an answer with a bucket for 70 only. *)
Lemma getRingParticipants_missing_amount_witness :
  (@getRingParticipants Fixture.utilities (map Fixture.input_of [50]) 2
     (Fixture.daemon (EmptyString, 0) (Value [(70, Fixture.decoys 2)])
        (Value true))
     (Fixture.world [])).1 =
    Value (inl (mkWalletError WalletErrorCode.NOT_ENOUGH_FAKE_OUTPUTS
                  (@no_outputs_message Fixture.utilities 50))).
Proof.
  apply (@getRingParticipants_missing_amount Fixture.utilities
           (map Fixture.input_of [50]) 2 _ _ [(70, Fixture.decoys 2)] [] 50 []).
  - lia.
  - reflexivity.
  - discriminate.
  - reflexivity.
  - by left.
  - constructor.
  - intros outputs Hin. apply elem_of_cons in Hin as [Heq|Hin].
    + discriminate Heq.
    + by apply elem_of_nil in Hin.
Defined.

Lemma getRingParticipants_one_request_witness :
  (@getRingParticipants Fixture.utilities (map Fixture.input_of [100; 100; 250])
     3 (Fixture.daemon (EmptyString, 0) (Value []) (Value true))
     (Fixture.world [])).2 =
    mkWorld (arrays (Fixture.world []))
      [CallGetRandomOutputsByAmount [100; 100; 250] 3].
Proof.
  apply (@getRingParticipants_one_request Fixture.utilities
           (map Fixture.input_of [100; 100; 250]) 3). lia.
Defined.

Lemma getRingParticipants_large_mixin_never_succeeds_witness :
  (@getRingParticipants Fixture.utilities (map Fixture.input_of [100]) 3
     (Fixture.daemon (EmptyString, 0) (Value [(100, Fixture.decoys 7)])
        (Value true))
     (Fixture.world [])).1 ≠
    Value (inr [reshape (Fixture.decoys 7)]).
Proof.
  apply (@getRingParticipants_large_mixin_never_succeeds Fixture.utilities).
  lia.
Defined.

Lemma getRingParticipants_succeeds_witness :
  (@getRingParticipants Fixture.utilities (map Fixture.input_of [100; 250]) 2
     (Fixture.daemon (EmptyString, 0)
        (Value [(250, Fixture.decoys 2); (100, Fixture.decoys 3)]) (Value true))
     (Fixture.world [])).1 =
    Value (inr [reshape (Fixture.decoys 2); reshape (Fixture.decoys 3)]).
Proof.
  apply (@getRingParticipants_succeeds Fixture.utilities
           (map Fixture.input_of [100; 250]) 2 _ _
           [(250, Fixture.decoys 2); (100, Fixture.decoys 3)]).
  - lia.
  - lia.
  - reflexivity.
  - discriminate.
  - reflexivity.
  - constructor; [exists (Fixture.decoys 3); set_solver |].
    constructor; [exists (Fixture.decoys 2); set_solver | constructor].
  - repeat constructor; simpl; lia.
Defined.

Lemma getRingParticipants_no_inputs_witness :
  (@getRingParticipants Fixture.utilities [] 1
     (Fixture.daemon (EmptyString, 0) (Value [(100, Fixture.decoys 1)])
        (Value true))
     (Fixture.world [])).1 =
    Value (inl (newWalletError WalletErrorCode.NOT_ENOUGH_FAKE_OUTPUTS)).
Proof.
  apply (@getRingParticipants_no_inputs Fixture.utilities 1
           (Fixture.daemon (EmptyString, 0) (Value [(100, Fixture.decoys 1)])
              (Value true))).
  lia.
Defined.

Lemma getRingParticipants_error_codes_witness :
  (2 : Z) ≠ 0 ∧
  ((getRandomOutputsByAmount
      (Fixture.daemon (EmptyString, 0) (Value []) (Value true))
      (input_amounts (map Fixture.input_of [50])) 2 = Value [] ∧
    newWalletError WalletErrorCode.DAEMON_OFFLINE =
      newWalletError WalletErrorCode.DAEMON_OFFLINE) ∨
   (∃ bucket outs,
      getRandomOutputsByAmount
        (Fixture.daemon (EmptyString, 0) (Value []) (Value true))
        (input_amounts (map Fixture.input_of [50])) 2 = Value (bucket :: outs) ∧
      errorCode (newWalletError WalletErrorCode.DAEMON_OFFLINE) =
        WalletErrorCode.NOT_ENOUGH_FAKE_OUTPUTS)).
Proof.
  apply (@getRingParticipants_error_codes Fixture.utilities
           (map Fixture.input_of [50]) 2 _ (Fixture.world [])).
  reflexivity.
Defined.

(** ** The destinations and the owned outputs *)

Section TransfersAndOutputs.

Context `{!Utilities, !ValidateParameters, !Config, !CryptoUtils}.

Lemma prepare_transfers_cons address amount rest paymentID :
  prepare_transfers ((address, amount) :: rest) paymentID =
    match decodeAddress address with
    | Throw err => Throw err
    | Value decoded =>
        match prepare_transfers rest
                (if bool_decide (DecodedAddress.paymentId decoded ≠ EmptyString)
                 then DecodedAddress.paymentId decoded else paymentID) with
        | Throw err => Throw err
        | Value (transfers, paymentID') =>
            Value (TxDestination.mk amount decoded :: transfers, paymentID')
        end
    end.
Proof.
  simpl. unfold mbind, Result_bind, mret, Result_ret.
  destruct (decodeAddress address) as [decoded|err]; [|done].
  by destruct (prepare_transfers rest _) as [[transfers paymentID']|err].
Qed.


(** X8: the [map] over the destinations keeps their number, order and
    amounts: the i-th transfer carries the amount of the i-th destination
    and the decoding of its address. *)
Theorem prepare_transfers_aligned destinations paymentID transfers paymentID' :
  prepare_transfers destinations paymentID = Value (transfers, paymentID') →
  Forall2 (λ (destination : Destination) transfer,
             TxDestination.amount transfer = destination.2 ∧
             decodeAddress destination.1 = Value (TxDestination.keys transfer))
    destinations transfers.
Proof.
  revert paymentID transfers.
  induction destinations as [|[address amount] rest IH];
    intros paymentID transfers.
  - intros [= <- _]. constructor.
  - rewrite prepare_transfers_cons.
    destruct (decodeAddress address) as [decoded|err] eqn:Hdecode; [|done].
    destruct (prepare_transfers rest _) as [[transfers' paymentID'']|err]
      eqn:Hrest; [|done].
    intros [= <- <-]. constructor; [done | by eapply IH].
Qed.


(** X10: the [map] throws the error of the first address that does not
    decode; the destinations after it are not looked at. *)
Theorem prepare_transfers_throws before address amount after paymentID err :
  Forall (λ destination : Destination, is_Value (decodeAddress destination.1))
    before →
  decodeAddress address = Throw err →
  prepare_transfers (before ++ (address, amount) :: after) paymentID =
    Throw err.
Proof.
  intros Hbefore Hthrow. revert paymentID.
  induction Hbefore as [|[address' amount'] before Hdecoded _ IH];
    intros paymentID.
  - simpl app. rewrite prepare_transfers_cons. by rewrite Hthrow.
  - simpl app. rewrite prepare_transfers_cons. simpl in Hdecoded.
    destruct (decodeAddress address') as [decoded|]; [|done].
    by rewrite IH.
Qed.

(** X11: the [map] returns exactly when every address decodes. *)
Theorem prepare_transfers_returns destinations paymentID :
  is_Value (prepare_transfers destinations paymentID) ↔
  Forall (λ destination : Destination, is_Value (decodeAddress destination.1))
    destinations.
Proof.
  revert paymentID.
  induction destinations as [|[address amount] rest IH]; intros paymentID.
  - split; [constructor | done].
  - rewrite prepare_transfers_cons, Forall_cons. simpl.
    destruct (decodeAddress address) as [decoded|err]; simpl;
      [|by split; [|intros []]].
    rewrite <- (IH (if bool_decide (DecodedAddress.paymentId decoded ≠ EmptyString)
                    then DecodedAddress.paymentId decoded else paymentID)).
    destruct (prepare_transfers rest _) as [[transfers paymentID']|err];
      simpl; tauto.
Qed.

Lemma derive_outputs_cons subWallets input inputs :
  derive_outputs subWallets (input :: inputs) =
    match derive_output subWallets input with
    | Throw err => Throw err
    | Value output =>
        match derive_outputs subWallets inputs with
        | Throw err => Throw err
        | Value outputs => Value (output :: outputs)
        end
    end.
Proof.
  simpl. unfold mbind, Result_bind, mret, Result_ret.
  destruct (derive_output subWallets input); [|done].
  by destruct (derive_outputs subWallets inputs).
Qed.

(** X12: the owned outputs are one per selected input, in the order of
    the inputs; each copies its input's amount, global index, index and
    key and its owner's spend keys, and carries the key image and the
    ephemeral key that [generateKeyImage] derived for that input with the
    wallet's private view key. *)
Theorem derive_outputs_aligned subWallets inputs outputs :
  derive_outputs subWallets inputs = Value outputs →
  Forall2 (λ input output,
             let txInput := TxInputAndOwner.input input in
             Output.amount output = TxInput.amount txInput ∧
             Output.globalIndex output = TxInput.globalOutputIndex txInput ∧
             Output.index output = TxInput.transactionIndex txInput ∧
             Output.key output = TxInput.key txInput ∧
             OutputKeys.privateSpendKey (Output.input output) =
               TxInputAndOwner.privateSpendKey input ∧
             OutputKeys.publicSpendKey (Output.input output) =
               TxInputAndOwner.publicSpendKey input ∧
             generateKeyImage (TxInput.transactionPublicKey txInput)
               (getPrivateViewKey subWallets)
               (TxInputAndOwner.publicSpendKey input)
               (TxInputAndOwner.privateSpendKey input)
               (TxInput.transactionIndex txInput) =
             Value (Output.keyImage output,
                    OutputKeys.privateEphemeral (Output.input output)))
    inputs outputs.
Proof.
  revert outputs. induction inputs as [|input inputs IH]; intros outputs.
  - intros [= <-]. constructor.
  - rewrite derive_outputs_cons.
    destruct (derive_output subWallets input) as [output|err] eqn:Houtput;
      [|done].
    destruct (derive_outputs subWallets inputs) as [outputs'|err]; [|done].
    intros [= <-]. constructor; [|by apply IH].
    unfold derive_output, mbind, Result_bind, mret, Result_ret in Houtput.
    destruct (generateKeyImage _ _ _ _ _) as [[keyImage tmpSecretKey]|err]
      eqn:Hderived; [|done].
    injection Houtput as <-. cbv zeta. simpl. by repeat split.
Qed.

End TransfersAndOutputs.

Lemma prepare_transfers_aligned_witness :
  Forall2 (λ (destination : Destination) transfer,
             TxDestination.amount transfer = destination.2 ∧
             @decodeAddress Fixture.codec destination.1 =
               Value (TxDestination.keys transfer))
    [("dest", 100); ("integratedA", 5)]
    [TxDestination.mk 100 (DecodedAddress.mk "view" "spend" EmptyString);
     TxDestination.mk 5 (DecodedAddress.mk "view" "spend" "A")].
Proof.
  apply (@prepare_transfers_aligned Fixture.codec
           [("dest", 100); ("integratedA", 5)] "given" _ "A").
  reflexivity.
Defined.


Lemma prepare_transfers_throws_witness :
  @prepare_transfers Fixture.codec [("dest", 1); ("bad", 2); ("dest", 3)]
    "given" = Throw "Error: invalid address".
Proof.
  apply (@prepare_transfers_throws Fixture.codec [("dest", 1)] "bad" 2
           [("dest", 3)] "given").
  - by repeat constructor.
  - reflexivity.
Defined.

Lemma prepare_transfers_returns_witness :
  is_Value
    (@prepare_transfers Fixture.codec [("dest", 1); ("integratedA", 2)] "given").
Proof.
  apply (proj2 (@prepare_transfers_returns Fixture.codec
                  [("dest", 1); ("integratedA", 2)] "given")).
  by repeat constructor.
Defined.

Lemma derive_outputs_aligned_witness :
  Forall2 (λ input output,
             let txInput := TxInputAndOwner.input input in
             Output.amount output = TxInput.amount txInput ∧
             Output.globalIndex output = TxInput.globalOutputIndex txInput ∧
             Output.index output = TxInput.transactionIndex txInput ∧
             Output.key output = TxInput.key txInput ∧
             OutputKeys.privateSpendKey (Output.input output) =
               TxInputAndOwner.privateSpendKey input ∧
             OutputKeys.publicSpendKey (Output.input output) =
               TxInputAndOwner.publicSpendKey input ∧
             @generateKeyImage Fixture.codec
               (TxInput.transactionPublicKey txInput)
               (getPrivateViewKey (Fixture.subWallets []))
               (TxInputAndOwner.publicSpendKey input)
               (TxInputAndOwner.privateSpendKey input)
               (TxInput.transactionIndex txInput) =
             Value (Output.keyImage output,
                    OutputKeys.privateEphemeral (Output.input output)))
    [Fixture.input_of 100; Fixture.input_of 250]
    [Output.mk 100 0 0
       (OutputKeys.mk "ephemeral of private" "private" "public") "key"
       "image of txkey";
     Output.mk 250 0 0
       (OutputKeys.mk "ephemeral of private" "private" "public") "key"
       "image of txkey"].
Proof.
  apply (@derive_outputs_aligned Fixture.codec (Fixture.subWallets [])).
  reflexivity.
Defined.

(** ** The send path: throws, network calls, outcomes and arrays *)

Section RingParticipantsOutcomes.

Context `{!Utilities}.

Lemma getRingParticipants_world inputs mixin daemon w :
  (getRingParticipants inputs mixin daemon w).2 =
    mkWorld (arrays w)
      (calls w ++
       if bool_decide (mixin = 0) then []
       else [CallGetRandomOutputsByAmount (input_amounts inputs) mixin]).
Proof.
  case_bool_decide as Hmixin.
  - subst. simpl. rewrite app_nil_r. by destruct w.
  - rewrite getRingParticipants_nonzero by done. simpl.
    destruct (getRandomOutputsByAmount _ _ _) as [outs|err]; [|done].
    case_bool_decide; [done |].
    destruct (check_amounts _ _ _ _); [done |]. by case_bool_decide.
Qed.

Lemma getRingParticipants_inr_length inputs mixin daemon w sets :
  (getRingParticipants inputs mixin daemon w).1 = Value (inr sets) →
  if bool_decide (mixin = 0) then sets = []
  else length sets = length inputs.
Proof.
  case_bool_decide as Hmixin.
  - subst. by intros [= <-].
  - rewrite getRingParticipants_nonzero by done. simpl.
    destruct (getRandomOutputsByAmount _ _ _) as [outs|err]; [|done].
    case_bool_decide; [done |].
    destruct (check_amounts _ _ _ _); [done |].
    case_bool_decide as Hlen; [done |].
    intros [= Hcollect]. apply collect_outputs_inr in Hcollect as [-> _].
    simpl. rewrite length_map. apply Nat2Z.inj in Hlen.
    unfold input_amounts in Hlen. by rewrite length_map in Hlen.
Qed.

Lemma getRingParticipants_inl_code inputs mixin daemon w error :
  (getRingParticipants inputs mixin daemon w).1 = Value (inl error) →
  errorCode error = WalletErrorCode.DAEMON_OFFLINE ∨
  errorCode error = WalletErrorCode.NOT_ENOUGH_FAKE_OUTPUTS.
Proof.
  destruct (decide (mixin = 0)) as [->|Hmixin]; [done |].
  rewrite getRingParticipants_nonzero by done. simpl.
  destruct (getRandomOutputsByAmount _ _ _) as [outs|err]; [|done].
  case_bool_decide; [intros [= <-]; by left |].
  intros Herror. right.
  destruct (check_amounts _ _ _ _) eqn:Hcheck.
  - injection Herror as <-. by eapply check_amounts_code.
  - case_bool_decide; [by injection Herror as <- |].
    injection Herror as Herror. by eapply collect_outputs_code.
Qed.

Lemma getRingParticipants_throw inputs mixin daemon w err :
  (getRingParticipants inputs mixin daemon w).1 = Throw err ↔
  mixin ≠ 0 ∧
  getRandomOutputsByAmount daemon (input_amounts inputs) mixin = Throw err.
Proof.
  destruct (decide (mixin = 0)) as [->|Hmixin]; [by split; [|intros []] |].
  rewrite getRingParticipants_nonzero by done. simpl.
  destruct (getRandomOutputsByAmount _ _ _) as [outs|err'].
  - split; [|by intros [_ ?]].
    case_bool_decide; [done |].
    destruct (check_amounts _ _ _ _); [done |]. by case_bool_decide.
  - simpl. split; [by intros [= ->] | by intros [_ [= ->]]].
Qed.

End RingParticipantsOutcomes.

Section TransferHelpers.

Context `{!CryptoUtils}.

Lemma prepare_transfers_amounts destinations paymentID transfers paymentID' :
  prepare_transfers destinations paymentID = Value (transfers, paymentID') →
  map TxDestination.amount transfers = map snd destinations.
Proof.
  revert paymentID transfers.
  induction destinations as [|[address amount] rest IH];
    intros paymentID transfers.
  - by intros [= <- _].
  - rewrite prepare_transfers_cons.
    destruct (decodeAddress address) as [decoded|err]; [|done].
    destruct (prepare_transfers rest _) as [[transfers' paymentID'']|err]
      eqn:Hrest; [|done].
    intros [= <- <-]. simpl. f_equal. by eapply IH.
Qed.

Lemma derive_outputs_amounts subWallets inputs outputs :
  derive_outputs subWallets inputs = Value outputs →
  map Output.amount outputs = input_amounts inputs.
Proof.
  revert outputs. induction inputs as [|input inputs IH]; intros outputs.
  - by intros [= <-].
  - rewrite derive_outputs_cons.
    destruct (derive_output subWallets input) as [output|err] eqn:Houtput;
      [|done].
    destruct (derive_outputs subWallets inputs) as [outputs'|err]; [|done].
    intros [= <-]. simpl. f_equal; [|by apply IH].
    unfold derive_output, mbind, Result_bind, mret, Result_ret in Houtput.
    destruct (generateKeyImage _ _ _ _ _) as [[keyImage tmpSecretKey]|err];
      [|done].
    by injection Houtput as <-.
Qed.

End TransferHelpers.

Section DraftShape.

Context `{!Utilities, !ValidateParameters, !Config, !CryptoUtils}.

(** X13: a draft that reaches the build carries the given [mixin] and
    fee, one transfer per element of the array with that element's
    amount, one owned output per selected input with that input's amount
    and, when [mixin] is not 0, as many decoy lists as owned outputs;
    with [mixin = 0] it carries no decoy list. *)
Theorem draftTransaction_shape daemon subWallets a mixin fee paymentID
    subWalletsToTakeFrom changeAddress w draft w1 :
  draftTransaction daemon subWallets a mixin fee paymentID subWalletsToTakeFrom
    changeAddress w = (Value (inr draft), w1) →
  let inputs :=
    (getTransactionInputsForAmount subWallets
       (sumBy_amount (array_contents w a) + fee) subWalletsToTakeFrom
       (getNetworkBlockCount daemon)).1 in
  draftMixin draft = mixin ∧
  draftFee draft = fee ∧
  map TxDestination.amount (transfers draft) = map snd (array_contents w a) ∧
  map Output.amount (ourOutputs draft) = input_amounts inputs ∧
  (mixin ≠ 0 → length (randomOuts draft) = length (ourOutputs draft)) ∧
  (mixin = 0 → randomOuts draft = []).
Proof.
  rewrite draftTransaction_eq. simpl.
  destruct (negb (deepEqual _ SUCCESS)); [done |].
  destruct (prepare_transfers _ _) as [[transfers paymentID']|err] eqn:Hprepare;
    [|done].
  destruct (derive_outputs _ _) as [ourOutputs|err] eqn:Hderive; [|done].
  match goal with
  | |- context [getRingParticipants ?i ?m ?d ?w0] =>
      pose proof (getRingParticipants_inr_length i m d w0) as Hring;
      destruct (getRingParticipants i m d w0) as [[[error|randomOuts]|err] w']
  end; try done.
  intros [= <- _]. simpl. specialize (Hring _ eq_refl).
  apply prepare_transfers_amounts in Hprepare.
  pose proof (derive_outputs_amounts _ _ _ Hderive) as Hamounts.
  split_and!; try done.
  - intros Hmixin. rewrite bool_decide_eq_false_2 in Hring by done.
    rewrite Hring. apply (f_equal length) in Hamounts.
    unfold input_amounts in Hamounts. rewrite !length_map in Hamounts.
    done.
  - intros ->. by rewrite bool_decide_eq_true_2 in Hring.
Qed.

End DraftShape.

Section SendMore.

Context `{!Utilities, !ValidateParameters, !Config, !CryptoUtils}.

Variables (daemon : IDaemon) (subWallets : SubWallets) (a : loc).
Variables (mixin fee : option Z) (paymentID : option string).
Variables (subWalletsToTakeFrom : option (list string)).
Variable changeAddress : option string.

Let mixin' := default_mixin daemon mixin.
Let fee' := default_fee fee.
Let paymentID' := default_paymentID paymentID.
Let takeFrom' := default_subWalletsToTakeFrom subWallets subWalletsToTakeFrom.
Let changeAddress' := default_changeAddress subWallets changeAddress.
Let height := getNetworkBlockCount daemon.
Let send :=
  sendTransactionAdvanced daemon subWallets a mixin fee paymentID
    subWalletsToTakeFrom changeAddress.
Let destinations (w : World) := with_node_fee daemon (array_contents w a).
Let valid (w : World) :=
  validateTransaction (destinations w) mixin' fee' paymentID' takeFrom'
    changeAddress' height subWallets.
Let inputs (w : World) :=
  (getTransactionInputsForAmount subWallets
     (sumBy_amount (destinations w) + fee') takeFrom' height).1.

(** The draft of a send, over the world it was called in. *)
Lemma send_draft_eq w :
  draftTransaction daemon subWallets a mixin' fee' paymentID' takeFrom'
    changeAddress' (add_node_fee daemon a w).2 =
  let w0 := (add_node_fee daemon a w).2 in
  let validated :=
    calls w ++ [CallValidateTransaction (destinations w) mixin' fee' paymentID'
                  takeFrom' changeAddress' height] in
  if negb (deepEqual (valid w) SUCCESS)
  then (Value (inl (valid w)), mkWorld (arrays w0) validated)
  else
    match prepare_transfers (destinations w) paymentID' with
    | Throw err => (Throw err, mkWorld (arrays w0) validated)
    | Value (transfers, paymentID'') =>
        let selected :=
          validated ++ [CallGetTransactionInputsForAmount
                          (sumBy_amount (destinations w) + fee') takeFrom'
                          height] in
        match derive_outputs subWallets (inputs w) with
        | Throw err => (Throw err, mkWorld (arrays w0) selected)
        | Value ourOutputs =>
            match getRingParticipants (inputs w) mixin' daemon
                    (mkWorld (arrays w0) selected) with
            | (Value (inr randomOuts), w') =>
                (Value (inr (mkDraft transfers ourOutputs randomOuts mixin'
                               fee' paymentID'')), w')
            | (Value (inl error), w') => (Value (inl error), w')
            | (Throw err, w') => (Throw err, w')
            end
        end
    end.
Proof.
  rewrite draftTransaction_eq.
  destruct (add_node_fee_spec daemon a w) as (w0 & -> & Harray & Hcalls & _).
  simpl. by rewrite Harray, Hcalls.
Qed.

(** X14: a request for random outputs that throws makes the send throw
    the same error: the resolution is outside every [try]. *)
Theorem fetch_failure_is_thrown w err :
  valid w = SUCCESS →
  is_Value (prepare_transfers (destinations w) paymentID') →
  is_Value (derive_outputs subWallets (inputs w)) →
  mixin' ≠ 0 →
  getRandomOutputsByAmount daemon (input_amounts (inputs w)) mixin' =
    Throw err →
  (send w).1 = Throw err.
Proof.
  intros Hvalid Hprepare Hderive Hmixin Hthrow. subst send. simpl.
  rewrite sendTransactionAdvanced_eq.
  fold mixin' fee' paymentID' takeFrom' changeAddress'.
  rewrite send_draft_eq. simpl. rewrite Hvalid. simpl.
  destruct (prepare_transfers _ _) as [[transfers paymentID'']|]; [|done].
  destruct (derive_outputs _ _) as [ourOutputs|]; [|done].
  match goal with
  | |- context [getRingParticipants ?i ?m ?d ?w0] =>
      pose proof (proj2 (getRingParticipants_throw i m d w0 err)
                    (conj Hmixin Hthrow)) as Hring;
      destruct (getRingParticipants i m d w0) as [[[error|randomOuts]|err'] w']
  end; simpl in *; congruence.
Qed.

(** A draft is made only after a validation that passed. *)
Lemma send_draft_valid w draft w1 :
  draftTransaction daemon subWallets a mixin' fee' paymentID' takeFrom'
    changeAddress' (add_node_fee daemon a w).2 = (Value (inr draft), w1) →
  valid w = SUCCESS.
Proof.
  rewrite send_draft_eq. simpl.
  destruct (negb (deepEqual (valid w) SUCCESS)) eqn:Hvalid; [done |].
  intros _. by apply deepEqual_SUCCESS in Hvalid.
Qed.

(** Where a throw of the drafting comes from. *)
Lemma send_draft_throw w err w1 :
  draftTransaction daemon subWallets a mixin' fee' paymentID' takeFrom'
    changeAddress' (add_node_fee daemon a w).2 = (Throw err, w1) →
  valid w = SUCCESS ∧
  (prepare_transfers (destinations w) paymentID' = Throw err ∨
   derive_outputs subWallets (inputs w) = Throw err ∨
   (mixin' ≠ 0 ∧
    getRandomOutputsByAmount daemon (input_amounts (inputs w)) mixin' =
      Throw err)).
Proof.
  rewrite send_draft_eq. simpl.
  destruct (negb (deepEqual (valid w) SUCCESS)) eqn:Hvalid; [done |].
  apply deepEqual_SUCCESS in Hvalid. rewrite Hvalid.
  destruct (prepare_transfers _ _) as [[transfers paymentID'']|err'];
    [|intros [= -> _]; by auto].
  destruct (derive_outputs _ _) as [ourOutputs|err'];
    [|intros [= -> _]; by auto].
  match goal with
  | |- context [getRingParticipants ?i ?m ?d ?w0] =>
      pose proof (getRingParticipants_throw i m d w0 err) as Hring;
      destruct (getRingParticipants i m d w0) as [[[error|randomOuts]|err'] w']
  end; simpl in *; [done | done |].
  intros [= -> _]. split; [done |]. right. right. by apply Hring.
Qed.

(** X15: the send throws only after a validation that passed, and the
    thrown value is that of the decoding of a destination, of the
    derivation of a key image, of the request for random outputs, or the
    one [toString()] raised in the handler of the build on the value
    [createTransaction] threw.  A build error that [toString()] renders
    and a throw of the relay are never propagated. *)
Theorem throw_origins w err :
  (send w).1 = Throw err →
  valid w = SUCCESS ∧
  (prepare_transfers (destinations w) paymentID' = Throw err ∨
   derive_outputs subWallets (inputs w) = Throw err ∨
   (mixin' ≠ 0 ∧
    getRandomOutputsByAmount daemon (input_amounts (inputs w)) mixin' =
      Throw err) ∨
   ∃ draft w1 thrown,
     draftTransaction daemon subWallets a mixin' fee' paymentID' takeFrom'
       changeAddress' (add_node_fee daemon a w).2 = (Value (inr draft), w1) ∧
     createTransaction (transfers draft) (ourOutputs draft) (randomOuts draft)
       (draftMixin draft) (draftFee draft) (draftPaymentID draft) =
       Throw thrown ∧
     toString thrown = Throw err).
Proof.
  subst send. simpl. rewrite sendTransactionAdvanced_eq.
  fold mixin' fee' paymentID' takeFrom' changeAddress'.
  destruct (draftTransaction _ _ _ _ _ _ _ _ _) as [[[error|draft]|err'] w1]
    eqn:Hdraft; simpl.
  - done.
  - rewrite buildTransaction_eq. simpl.
    destruct (createTransaction _ _ _ _ _ _) as [tx|thrown] eqn:Hbuild.
    + rewrite relayTransaction_eq. simpl.
      by destruct (sendTransaction _ _) as [[]|].
    + destruct (toString thrown) as [text|raised] eqn:Htext; [done |].
      intros [= ->]. split; [by eapply send_draft_valid |].
      right. right. right. by exists draft, w1, thrown.
  - intros [= ->]. apply send_draft_throw in Hdraft as [Hvalid Horigin].
    split; [done |]. destruct Horigin as [?|[?|?]]; auto.
Qed.

(** X16: a send makes at most two network calls, each at most once: the
    request for random outputs, made only with a non-zero [mixin], and
    after it the relay. *)
Theorem network_calls_at_most_two w :
  ∃ fetch relay,
    network_calls (calls (send w).2) =
      network_calls (calls w) ++ fetch ++ relay ∧
    (fetch = [] ∨
     mixin' ≠ 0 ∧
     fetch = [CallGetRandomOutputsByAmount (input_amounts (inputs w)) mixin']) ∧
    (relay = [] ∨ ∃ rawTransaction, relay = [CallSendTransaction rawTransaction]).
Proof.
  subst send. simpl. rewrite sendTransactionAdvanced_eq.
  fold mixin' fee' paymentID' takeFrom' changeAddress'.
  rewrite send_draft_eq. simpl.
  destruct (negb (deepEqual (valid w) SUCCESS)).
  { exists [], []. simpl. rewrite network_calls_app. simpl.
    rewrite !app_nil_r. auto. }
  destruct (prepare_transfers _ _) as [[transfers paymentID'']|err'].
  2:{ exists [], []. simpl. rewrite network_calls_app. simpl.
      rewrite !app_nil_r. auto. }
  destruct (derive_outputs _ _) as [ourOutputs|err'].
  2:{ exists [], []. simpl. rewrite !network_calls_app. simpl.
      rewrite !app_nil_r. auto. }
  match goal with
  | |- context [getRingParticipants ?i ?m ?d ?w0] =>
      pose proof (getRingParticipants_world i m d w0) as Hworld;
      destruct (getRingParticipants i m d w0) as [[[error|randomOuts]|err'] w']
  end; simpl in Hworld; subst w'.
  1,3: (case_bool_decide;
        [exists [], []|eexists [_], []]; simpl;
        rewrite !network_calls_app; simpl; rewrite !app_nil_r; auto).
  rewrite buildTransaction_eq. simpl.
  destruct (createTransaction _ _ _ _ _ _) as [tx|err'].
  - rewrite relayTransaction_eq. simpl.
    assert (∀ w2,
              calls (match sendTransaction daemon
                             (CreatedTransaction.rawTransaction tx) with
                     | Value true => (Value (inr (CreatedTransaction.hash tx)), w2)
                     | Value false =>
                         (Value (inl (newWalletError
                                        WalletErrorCode.DAEMON_ERROR)), w2)
                     | Throw _ =>
                         (Value (inl (newWalletError
                                        WalletErrorCode.DAEMON_OFFLINE)), w2)
                     end).2 = calls w2) as Hrelay.
    { intros w2. by destruct (sendTransaction _ _) as [[]|]. }
    rewrite Hrelay. simpl.
    case_bool_decide;
      [exists []|eexists [_]]; eexists [_]; simpl;
      rewrite !network_calls_app; simpl; rewrite ?app_nil_r;
      (split;
         [by rewrite <- ?app_assoc
         |split; [first [by left | by right] | right; by eexists]]).
  - destruct (toString err');
      (simpl;
       case_bool_decide;
         [exists [], []|eexists [_], []]; simpl;
         rewrite !network_calls_app; simpl; rewrite !app_nil_r; auto).
Qed.

(** X17: a hash is returned only for a transaction that passed the
    validation, was built and was acknowledged by the daemon: the hash is
    the built transaction's and the daemon answered true to its raw
    form. *)
Theorem hash_only_when_acknowledged w hash :
  (send w).1 = Value (inr hash) →
  valid w = SUCCESS ∧
  ∃ draft w1 tx,
    draftTransaction daemon subWallets a mixin' fee' paymentID' takeFrom'
      changeAddress' (add_node_fee daemon a w).2 = (Value (inr draft), w1) ∧
    createTransaction (transfers draft) (ourOutputs draft) (randomOuts draft)
      (draftMixin draft) (draftFee draft) (draftPaymentID draft) = Value tx ∧
    CreatedTransaction.hash tx = hash ∧
    sendTransaction daemon (CreatedTransaction.rawTransaction tx) = Value true.
Proof.
  subst send. simpl. rewrite sendTransactionAdvanced_eq.
  fold mixin' fee' paymentID' takeFrom' changeAddress'.
  assert (valid w ≠ SUCCESS →
          ∃ w1, draftTransaction daemon subWallets a mixin' fee' paymentID'
                  takeFrom' changeAddress' (add_node_fee daemon a w).2 =
                (Value (inl (valid w)), w1)) as Hinvalid.
  { intros Hne. rewrite send_draft_eq. simpl.
    destruct (negb (deepEqual (valid w) SUCCESS)) eqn:Hvalid; [by eexists |].
    by apply deepEqual_SUCCESS in Hvalid. }
  destruct (draftTransaction _ _ _ _ _ _ _ _ _) as [[[error|draft]|err] w1]
    eqn:Hdraft; [done | | done].
  rewrite buildTransaction_eq. simpl.
  destruct (createTransaction _ _ _ _ _ _) as [tx|err] eqn:Hbuild;
    [|by destruct (toString err)].
  rewrite relayTransaction_eq. simpl.
  destruct (sendTransaction _ _) as [[]|] eqn:Hrelay; [|done|done].
  intros [= <-]. split.
  - destruct (decide (valid w = SUCCESS)) as [|Hne]; [done |].
    by destruct (Hinvalid Hne) as [w1' [=]].
  - by exists draft, w1, tx.
Qed.

(** X18: the send touches no array but the one it was given. *)
Theorem other_arrays_untouched w b :
  b ≠ a → array_contents (send w).2 b = array_contents w b.
Proof.
  intros Hb. subst send. simpl. unfold array_contents at 1.
  rewrite sendTransactionAdvanced_arrays.
  destruct (add_node_fee_spec daemon a w) as (w0 & -> & _ & _ & Hframe).
  by apply Hframe.
Qed.

(** X20: an error returned by the send is the validation's error or has
    one of four codes: [DAEMON_OFFLINE] or [NOT_ENOUGH_FAKE_OUTPUTS] from
    the resolution, [UNKNOWN_ERROR] from the build, [DAEMON_ERROR] or
    [DAEMON_OFFLINE] from the relay. *)
Theorem returned_errors w error :
  (send w).1 = Value (inl error) →
  (valid w ≠ SUCCESS ∧ error = valid w) ∨
  (valid w = SUCCESS ∧
   errorCode error ∈
     [WalletErrorCode.DAEMON_OFFLINE; WalletErrorCode.NOT_ENOUGH_FAKE_OUTPUTS;
      WalletErrorCode.UNKNOWN_ERROR; WalletErrorCode.DAEMON_ERROR]).
Proof.
  subst send. simpl. rewrite sendTransactionAdvanced_eq.
  fold mixin' fee' paymentID' takeFrom' changeAddress'.
  rewrite send_draft_eq. simpl.
  destruct (negb (deepEqual (valid w) SUCCESS)) eqn:Hvalid.
  { intros [= <-]. left. split; [|done]. intros Heq.
    apply deepEqual_SUCCESS in Heq. congruence. }
  apply deepEqual_SUCCESS in Hvalid. intros Herror. right. split; [done |].
  revert Herror.
  destruct (prepare_transfers _ _) as [[transfers paymentID'']|err']; [|done].
  destruct (derive_outputs _ _) as [ourOutputs|err']; [|done].
  match goal with
  | |- context [getRingParticipants ?i ?m ?d ?w0] =>
      pose proof (getRingParticipants_inl_code i m d w0) as Hring;
      destruct (getRingParticipants i m d w0) as [[[error'|randomOuts]|err'] w']
  end; simpl in *; [| |done].
  - intros [= <-]. destruct (Hring _ eq_refl) as [->| ->]; set_solver.
  - rewrite buildTransaction_eq. simpl.
    destruct (createTransaction _ _ _ _ _ _) as [tx|err'].
    + rewrite relayTransaction_eq. simpl.
      destruct (sendTransaction _ _) as [[]|]; [done | |];
        intros [= <-]; simpl; set_solver.
    + destruct (toString err'); [|done].
      intros [= <-]. simpl. set_solver.
Qed.

End SendMore.

Section ValidateMore.

Context `{!ValidateParameters}.

(** X19: the validation succeeds exactly when each of its seven checks
    returns [SUCCESS]; otherwise its result is the result of one of the
    checks, and is not [SUCCESS]. *)
Theorem validateTransaction_SUCCESS destinations mixin fee paymentID
    subWalletsToTakeFrom changeAddress currentHeight subWallets :
  let stages :=
    validation_stages destinations mixin fee paymentID subWalletsToTakeFrom
      changeAddress currentHeight subWallets in
  let error :=
    validateTransaction destinations mixin fee paymentID subWalletsToTakeFrom
      changeAddress currentHeight subWallets in
  (error = SUCCESS ↔ Forall (λ stage, stage = SUCCESS) stages) ∧
  (error ≠ SUCCESS → error ∈ stages).
Proof.
  intros stages error. subst error. rewrite validateTransaction_stages.
  fold stages. split; [apply first_failure_SUCCESS |].
  generalize stages. clear stages. intros stages.
  induction stages as [|stage stages IH]; simpl; [done |].
  destruct (decide (stage = SUCCESS)); [|set_solver].
  intros Hne. apply elem_of_cons. right. by apply IH.
Qed.

End ValidateMore.

Section Basic.

Context `{!Utilities, !ValidateParameters, !Config, !CryptoUtils}.

Lemma sendTransactionBasic_eq daemon subWallets destination amount paymentID w :
  sendTransactionBasic daemon subWallets destination amount paymentID w =
    let a := fresh (dom (arrays w)) in
    sendTransactionAdvanced daemon subWallets a None None paymentID None None
      (mkWorld (<[a := [(destination, amount)]]> (arrays w)) (calls w)).
Proof. done. Qed.

(** X21: the basic send works on an array of its own: every array that
    existed before the call holds afterwards what it held before, node
    fee or not. *)
Theorem sendTransactionBasic_keeps_arrays daemon subWallets destination amount
    paymentID w b elements :
  arrays w !! b = Some elements →
  arrays (sendTransactionBasic daemon subWallets destination amount paymentID
            w).2 !! b = Some elements.
Proof.
  intros Hb. rewrite sendTransactionBasic_eq. simpl.
  rewrite sendTransactionAdvanced_arrays.
  assert (b ≠ fresh (dom (arrays w))) as Hfresh.
  { intros ->. apply (is_fresh (dom (arrays w))). apply elem_of_dom. eauto. }
  unfold add_node_fee. destruct (nodeFee daemon) as [feeAddress feeAmount].
  case_bool_decide; simpl; by rewrite ?lookup_insert_ne by done.
Qed.

(** X22: the basic send validates the one destination, followed by the
    node fee if there is one, with the default mixin for the current
    height, the minimum fee, the given payment ID or the empty one, all
    the wallet's addresses as sources and its primary address for the
    change. *)
Theorem sendTransactionBasic_defaults daemon subWallets destination amount
    paymentID w :
  ∃ later,
    calls (sendTransactionBasic daemon subWallets destination amount paymentID
             w).2 =
    calls w ++
      CallValidateTransaction
        (with_node_fee daemon [(destination, amount)])
        (getDefaultMixinByHeight (getNetworkBlockCount daemon)) minimumFee
        (default_paymentID paymentID) (getAddresses subWallets)
        (getPrimaryAddress subWallets) (getNetworkBlockCount daemon) :: later.
Proof.
  rewrite sendTransactionBasic_eq. simpl.
  match goal with
  | |- context [sendTransactionAdvanced ?d ?s ?a ?m ?f ?p ?t ?c ?w0] =>
      destruct (sendTransactionAdvanced_calls d s a m f p t c w0)
        as [later' ->];
      destruct (add_node_fee_spec d a w0) as (w1 & -> & Harray & Hcalls & _);
      destruct (draftTransaction_calls d s a (default_mixin d m)
                  (default_fee f) (default_paymentID p)
                  (default_subWalletsToTakeFrom s t)
                  (default_changeAddress s c) w1) as [[later Hlater] _]
  end.
  simpl in *. rewrite Hlater, Hcalls, Harray. simpl.
  unfold array_contents. simpl. rewrite lookup_insert_eq. simpl.
  exists (later ++ later'). by rewrite <- app_assoc.
Qed.

End Basic.

(** One input of amount 100 selected, [mixin = 2], two decoys returned:
    the draft reaches the build with one decoy list for one owned
    output. *)
Lemma draftTransaction_shape_witness :
  match
    (@draftTransaction Fixture.utilities (Fixture.validators 3) Fixture.codec
       (Fixture.daemon (EmptyString, 0) (Value [(100, Fixture.decoys 2)])
          (Value true))
       (Fixture.subWallets [Fixture.input_of 100]) Fixture.array 2 10
       EmptyString ["ours"] "ours" (Fixture.world [("dest", 90)])).1
  with
  | Value (inr draft) =>
      draftMixin draft = 2 ∧ draftFee draft = 10 ∧
      map TxDestination.amount (transfers draft) = [90] ∧
      map Output.amount (ourOutputs draft) = [100] ∧
      length (randomOuts draft) = length (ourOutputs draft)
  | _ => False
  end.
Proof.
  destruct (@draftTransaction Fixture.utilities (Fixture.validators 3)
              Fixture.codec
              (Fixture.daemon (EmptyString, 0)
                 (Value [(100, Fixture.decoys 2)]) (Value true))
              (Fixture.subWallets [Fixture.input_of 100]) Fixture.array 2 10
              EmptyString ["ours"] "ours" (Fixture.world [("dest", 90)]))
    as [[[error|draft]|err] w1] eqn:Hdraft;
    [vm_compute in Hdraft; discriminate Hdraft
    | |vm_compute in Hdraft; discriminate Hdraft].
  destruct (@draftTransaction_shape Fixture.utilities (Fixture.validators 3)
              Fixture.codec _ _ _ _ _ _ _ _ _ _ _ Hdraft)
    as (Hmixin & Hfee & Htransfers & Houtputs & Hdecoys & _).
  simpl. split_and!; [done | done | done | done | apply Hdecoys; lia].
Defined.

Lemma fetch_failure_is_thrown_witness :
  (@sendTransactionAdvanced Fixture.utilities (Fixture.validators 3)
     Fixture.config Fixture.codec
     (Fixture.daemon (EmptyString, 0) (Throw "Error: timeout") (Value true))
     (Fixture.subWallets [Fixture.input_of 100]) Fixture.array (Some 1) None
     None None None (Fixture.world [("dest", 90)])).1 = Throw "Error: timeout".
Proof.
  apply (@fetch_failure_is_thrown Fixture.utilities (Fixture.validators 3)
           Fixture.config Fixture.codec).
  - reflexivity.
  - exact I.
  - exact I.
  - discriminate.
  - reflexivity.
Defined.

(** A destination that does not decode: the send throws the codec's
    error. *)
Lemma throw_origins_witness :
  (@sendTransactionAdvanced Fixture.utilities (Fixture.validators 3)
     Fixture.config Fixture.codec
     (Fixture.daemon (EmptyString, 0) (Value []) (Value true))
     (Fixture.subWallets []) Fixture.array (Some 1) None None None None
     (Fixture.world [("bad", 90)])).1 = Throw "Error: invalid address" ∧
  @prepare_transfers Fixture.codec [("bad", 90)] EmptyString =
    Throw "Error: invalid address".
Proof.
  split; [reflexivity |].
  destruct (@throw_origins Fixture.utilities
              (Fixture.validators 3) Fixture.config Fixture.codec
              (Fixture.daemon (EmptyString, 0) (Value []) (Value true))
              (Fixture.subWallets []) Fixture.array (Some 1) None None None
              None (Fixture.world [("bad", 90)]) "Error: invalid address"
              eq_refl)
    as [_ [Hdecode|[Hderive|[[_ Hfetch]|(draft & w1 & thrown & Hdraft & _)]]]].
  - exact Hdecode.
  - discriminate Hderive.
  - discriminate Hfetch.
  - vm_compute in Hdraft. discriminate Hdraft.
Defined.

Lemma hash_only_when_acknowledged_witness :
  ∃ tx,
    sendTransaction (Fixture.daemon ("node", 5) (Value []) (Value true))
      (CreatedTransaction.rawTransaction tx) = Value true ∧
    CreatedTransaction.hash tx = "hash"%string.
Proof.
  destruct (@hash_only_when_acknowledged Fixture.utilities
              (Fixture.validators 3) Fixture.config
              (Fixture.crypto (Value Fixture.tx))
              (Fixture.daemon ("node", 5) (Value []) (Value true))
              (Fixture.subWallets []) Fixture.array (Some 0) None None None
              None (Fixture.world [("dest", 100)]) "hash" eq_refl)
    as [_ (draft & w1 & tx & _ & _ & Hhash & Hrelay)].
  exists tx. by split.
Defined.

Lemma other_arrays_untouched_witness :
  array_contents
    (@sendTransactionAdvanced Fixture.utilities (Fixture.validators 3)
       Fixture.config (Fixture.crypto (Value Fixture.tx))
       (Fixture.daemon ("node", 5) (Value []) (Value true))
       (Fixture.subWallets []) 1%positive (Some 0) None None None None
       (mkWorld {[ 1%positive := [("dest", 100)]; 2%positive := [("other", 7)] ]}
          [])).2
    2%positive =
  array_contents
    (mkWorld {[ 1%positive := [("dest", 100)]; 2%positive := [("other", 7)] ]}
       [])
    2%positive.
Proof.
  apply (@other_arrays_untouched Fixture.utilities (Fixture.validators 3)
           Fixture.config (Fixture.crypto (Value Fixture.tx))).
  discriminate.
Defined.

Lemma returned_errors_witness :
  errorCode (newWalletError WalletErrorCode.DAEMON_OFFLINE) ∈
    [WalletErrorCode.DAEMON_OFFLINE; WalletErrorCode.NOT_ENOUGH_FAKE_OUTPUTS;
     WalletErrorCode.UNKNOWN_ERROR; WalletErrorCode.DAEMON_ERROR].
Proof.
  destruct (@returned_errors Fixture.utilities (Fixture.validators 3)
              Fixture.config Fixture.codec
              (Fixture.daemon (EmptyString, 0) (Value []) (Value true))
              (Fixture.subWallets [Fixture.input_of 100]) Fixture.array
              (Some 1) None None None None (Fixture.world [("dest", 90)])
              (newWalletError WalletErrorCode.DAEMON_OFFLINE) eq_refl)
    as [[Hinvalid _]|[_ Hcode]].
  - exfalso. apply Hinvalid. reflexivity.
  - exact Hcode.
Defined.

Lemma validateTransaction_SUCCESS_witness :
  @validateTransaction (Fixture.validators 3) [("dest", 100)] 5 10 EmptyString
    ["ours"] "ours" 1000 (Fixture.subWallets []) ∈
  @validation_stages (Fixture.validators 3) [("dest", 100)] 5 10 EmptyString
    ["ours"] "ours" 1000 (Fixture.subWallets []).
Proof.
  apply (@validateTransaction_SUCCESS (Fixture.validators 3)).
  discriminate.
Defined.

Lemma sendTransactionBasic_keeps_arrays_witness :
  arrays
    (@sendTransactionBasic Fixture.utilities (Fixture.validators 3)
       Fixture.config (Fixture.crypto (Value Fixture.tx))
       (Fixture.daemon ("node", 5) (Value []) (Value true))
       (Fixture.subWallets []) "dest" 100 None
       (Fixture.world [("earlier", 1)])).2 !! Fixture.array =
  Some [("earlier", 1)].
Proof.
  apply (@sendTransactionBasic_keeps_arrays Fixture.utilities
           (Fixture.validators 3) Fixture.config
           (Fixture.crypto (Value Fixture.tx))).
  reflexivity.
Defined.
